(** * GUI-tools server: the element locator and the typing tool

    A shallow embedding of [server.py]: the accessibility-tree walk
    ([get_center_point], [extract_elements] with its local closure
    [traverse], [get_ui_elements]) and the keyboard tool [type_text],
    together with the Python built-ins they rest on ([str.split],
    [float], [int + float]). *)

From Stdlib Require Import ZArith List String Ascii Bool Lia.
From Corelib Require Import SpecFloat.
Import ListNotations.

Local Open Scope string_scope.
Local Open Scope Z_scope.
Local Open Scope list_scope.

(** ** Python values, exceptions and built-ins *)

Module Py.

(** The built-in exceptions the modelled code can raise. *)
Inductive exn : Type :=
| KeyError (key : string)
| IndexError
| ValueError
| OverflowError.

(** A computation either returns a value or raises. *)
Inductive result (A : Type) : Type :=
| Ok (a : A)
| Raise (e : exn).
Arguments Ok {A} a.
Arguments Raise {A} e.

Definition bind {A B : Type} (m : result A) (k : A -> result B) : result B :=
  match m with
  | Ok a => k a
  | Raise e => Raise e
  end.

Definition is_ok {A : Type} (m : result A) : bool :=
  match m with Ok _ => true | Raise _ => false end.

(** *** Strings

    A [str] is a sequence of code points; the model keeps the code
    points below 256, one [ascii] each. *)

(** [cons_head c l] puts [c] in front of the first string of [l]. *)
Definition cons_head (c : ascii) (l : list string) : list string :=
  match l with
  | [] => [String c EmptyString]
  | seg :: segs => String c seg :: segs
  end.

(** The scan of [str.split(sep)]: left to right, cutting at every
    occurrence of [sep] that does not overlap the previous one.
    [skip] counts the characters of a matched separator that are still
    to be passed over. *)
Fixpoint split_scan (sep : string) (skip : nat) (s : string) : list string :=
  match s with
  | EmptyString => [EmptyString]
  | String c s' =>
      match skip with
      | S k => split_scan sep k s'
      | O =>
          if prefix sep s
          then EmptyString :: split_scan sep (pred (String.length sep)) s'
          else cons_head c (split_scan sep 0 s')
      end
  end.

(** [s.split(sep)]: an empty separator is a [ValueError]. *)
Definition str_split (sep s : string) : result (list string) :=
  match sep with
  | EmptyString => Raise ValueError
  | _ => Ok (split_scan sep 0 s)
  end.

(** [l[i]] on a list. *)
Definition getitem {A : Type} (l : list A) (i : nat) : result A :=
  match nth_error l i with
  | Some a => Ok a
  | None => Raise IndexError
  end.

(** [d[key]] on a dict entry that may be absent. *)
Definition dict_getitem {A : Type} (key : string) (v : option A) : result A :=
  match v with
  | Some a => Ok a
  | None => Raise (KeyError key)
  end.

(** *** Numbers

    An [int] is unbounded; a [float] is an IEEE 754 binary64 value. *)

Definition prec : Z := 53.
Definition emax : Z := 1024.

Inductive num : Type :=
| PyInt (z : Z)
| PyFloat (f : spec_float).

Definition is_int (v : num) : bool :=
  match v with PyInt _ => true | PyFloat _ => false end.

Definition is_float (v : num) : bool :=
  match v with PyInt _ => false | PyFloat _ => true end.

(** [float.is_integer()]: finite and without fractional part. *)
Definition float_is_integer (f : spec_float) : bool :=
  match f with
  | S754_zero _ => true
  | S754_finite _ m e =>
      if 0 <=? e then true
      else Z.eqb (Z.land (Zpos m) (Z.ones (- e))) 0
  | _ => false
  end.

(** Whether a number has an integral value, whatever its type. *)
Definition integral (v : num) : bool :=
  match v with
  | PyInt _ => true
  | PyFloat f => float_is_integer f
  end.

(** The conversion [int -> float] that mixed arithmetic performs:
    rounded to nearest, ties to even; an [int] that rounds beyond the
    largest finite float is an [OverflowError]. *)
Definition float_of_int (z : Z) : result spec_float :=
  match binary_normalize prec emax z 0 false with
  | S754_infinity _ => Raise OverflowError
  | f => Ok f
  end.

(** [a + b] on numbers. *)
Definition add (a b : num) : result num :=
  match a, b with
  | PyInt x, PyInt y => Ok (PyInt (x + y))
  | PyInt x, PyFloat g =>
      bind (float_of_int x) (fun f => Ok (PyFloat (SFadd prec emax f g)))
  | PyFloat f, PyInt y =>
      bind (float_of_int y) (fun g => Ok (PyFloat (SFadd prec emax f g)))
  | PyFloat f, PyFloat g => Ok (PyFloat (SFadd prec emax f g))
  end.

(** [a == b] on numbers: equality of the exact values ([nan] equals
    nothing, the two zeros are equal). *)
Definition float_eq_int (f : spec_float) (z : Z) : bool :=
  match f with
  | S754_zero _ => Z.eqb z 0
  | S754_finite s m e =>
      let v := if s then Zneg m else Zpos m in
      if 0 <=? e then Z.eqb (Z.shiftl v e) z
      else Z.eqb v (Z.shiftl z (- e))
  | _ => false
  end.

Definition eqb (a b : num) : bool :=
  match a, b with
  | PyInt x, PyInt y => Z.eqb x y
  | PyInt x, PyFloat g => float_eq_int g x
  | PyFloat f, PyInt y => float_eq_int f y
  | PyFloat f, PyFloat g => SFeqb f g
  end.

(** *** [float(str)]

    The text is stripped of surrounding white space, underscores are
    accepted between two digits only, and what remains must be, in
    full, a decimal number

      [sign] (digits [. [digits]] | . digits) [(e|E) [sign] digits]

    or one of [inf], [infinity], [nan] (any case, optional sign).
    The decimal value is rounded to the nearest binary64, ties to
    even; a value too large becomes an infinity, one too small a
    zero.  Anything else is a [ValueError]. *)

Definition is_space (c : ascii) : bool :=
  let n := nat_of_ascii c in
  ((9 <=? n) && (n <=? 13) || (n =? 32) || (n =? 133) || (n =? 160))%nat.

Definition is_digit (c : ascii) : bool :=
  let n := nat_of_ascii c in ((48 <=? n) && (n <=? 57))%nat.

Definition digit_val (c : ascii) : Z := Z.of_nat (nat_of_ascii c - 48).

Definition lower (c : ascii) : ascii :=
  let n := nat_of_ascii c in
  if ((65 <=? n) && (n <=? 90))%nat then ascii_of_nat (n + 32) else c.

Fixpoint lstrip (l : list ascii) : list ascii :=
  match l with
  | c :: l' => if is_space c then lstrip l' else l
  | [] => []
  end.

Definition strip (l : list ascii) : list ascii :=
  rev (lstrip (rev (lstrip l))).

Definition is_underscore (c : ascii) : bool := Ascii.eqb c "_"%char.

(** Removes the underscores; [None] when one of them is not between
    two digits.  [prev] is the character just passed. *)
Fixpoint drop_underscores (prev : option ascii) (l : list ascii)
  : option (list ascii) :=
  match l with
  | [] =>
      match prev with
      | Some p => if is_underscore p then None else Some []
      | None => Some []
      end
  | c :: l' =>
      if is_underscore c then
        match prev with
        | Some p => if is_digit p then drop_underscores (Some c) l' else None
        | None => None
        end
      else
        match prev with
        | Some p =>
            if is_underscore p && negb (is_digit c) then None
            else option_map (cons c) (drop_underscores (Some c) l')
        | None => option_map (cons c) (drop_underscores (Some c) l')
        end
  end.

Definition take_sign (l : list ascii) : bool * list ascii :=
  match l with
  | c :: l' =>
      if Ascii.eqb c "-"%char then (true, l')
      else if Ascii.eqb c "+"%char then (false, l')
      else (false, l)
  | [] => (false, [])
  end.

(** The longest prefix of digits, and what follows it. *)
Fixpoint span_digits (l : list ascii) : list ascii * list ascii :=
  match l with
  | c :: l' =>
      if is_digit c
      then let (ds, rest) := span_digits l' in (c :: ds, rest)
      else ([], l)
  | [] => ([], [])
  end.

Definition number_of_digits (ds : list ascii) : Z :=
  fold_left (fun acc c => 10 * acc + digit_val c) ds 0.

(** The float nearest to [(-1)^neg * m * 10^e10], for [0 <= m]. *)
Definition decimal_value (neg : bool) (m e10 : Z) : spec_float :=
  match m with
  | Zpos p =>
      if 0 <=? e10
      then binary_round prec emax neg (p * Z.to_pos (10 ^ e10)) 0
      else SFdiv prec emax (S754_finite neg p 0)
                 (S754_finite false (Z.to_pos (10 ^ (- e10))) 0)
  | _ => S754_zero neg
  end.

(** The exponent part, which must reach the end of the text. *)
Definition parse_exponent (l : list ascii) : option Z :=
  match l with
  | [] => Some 0
  | c :: l1 =>
      if Ascii.eqb (lower c) "e"%char then
        let (eneg, l2) := take_sign l1 in
        match span_digits l2 with
        | ((_ :: _) as ds, []) =>
            Some (if eneg then - number_of_digits ds else number_of_digits ds)
        | _ => None
        end
      else None
  end.

Definition parse_decimal (l : list ascii) : option spec_float :=
  let (neg, l1) := take_sign l in
  let (ip, l2) := span_digits l1 in
  let (fp, l3) :=
    match l2 with
    | c :: l2' => if Ascii.eqb c "."%char then span_digits l2' else ([], l2)
    | [] => ([], [])
    end in
  match ip ++ fp with
  | [] => None
  | ds =>
      match parse_exponent l3 with
      | Some e =>
          Some (decimal_value neg (number_of_digits ds)
                              (e - Z.of_nat (List.length fp)))
      | None => None
      end
  end.

Definition parse_inf_nan (l : list ascii) : option spec_float :=
  let (neg, l1) := take_sign l in
  let w := string_of_list_ascii (map lower l1) in
  if String.eqb w "inf" || String.eqb w "infinity" then Some (S754_infinity neg)
  else if String.eqb w "nan" then Some S754_nan
  else None.

Definition float (s : string) : result spec_float :=
  match drop_underscores None (strip (list_ascii_of_string s)) with
  | None => Raise ValueError
  | Some l =>
      match parse_decimal l with
      | Some f => Ok f
      | None =>
          match parse_inf_nan l with
          | Some f => Ok f
          | None => Raise ValueError
          end
      end
  end.

End Py.

Import Py.

Notation "x <- m ;; k" := (bind m (fun x => k))
  (at level 61, m at next level, right associativity).

(** ** The accessibility tree and the located elements *)

Local Unset Elimination Schemes.

(** A node of the tree the provider returns: a dict, of which the code
    reads six keys.  A field is [None] when the key is absent;
    [children] is the value of [node.get('children', [])].  A bounding
    box is the sequence stored under ['visible_bbox'], pixel
    coordinates, which are [int]s.  A key that is present with a value
    of another kind (a box that is [None] or not a sequence, on which
    the unpacking raises TypeError) is outside this type. *)
Inductive node : Type :=
  Node {
      absolute_position : option string;
      role : option string;
      visible_bbox : option (list Z);
      description : option string;
      role_description : option string;
      children : list node
    }.

Local Set Elimination Schemes.

(** The dict appended to an output list. *)
Record element : Type :=
  Element {
      center : num * num;
      el_description : option string;
      el_role_description : option string
    }.

(** The two lists [extract_elements] creates and [traverse] appends to. *)
Record outputs : Type :=
  Outputs {
      buttons : list element;
      text_areas : list element
    }.

(** [x in xs] for the value of [node.get('role')]: an absent role is
    [None], which is in no list of strings. *)
Definition role_in (r : option string) (names : list string) : bool :=
  match r with
  | Some s => existsb (String.eqb s) names
  | None => false
  end.

Definition role_is (r : option string) (name : string) : bool :=
  match r with
  | Some s => String.eqb s name
  | None => false
  end.

Definition has_key {A : Type} (v : option A) : bool :=
  match v with Some _ => true | None => false end.

(** ** The locator *)

(** [x1, y1, x2, y2 = bbox] raises [ValueError] unless the box has four
    items; [//] is floor division. *)
Definition get_center_point (bbox : list Z) : result (Z * Z) :=
  match bbox with
  | [x1; y1; x2; y2] =>
      let center_x := (x1 + x2) / 2 in
      let center_y := (y1 + y2) / 2 in
      Ok (center_x, center_y)
  | _ => Raise ValueError
  end.

(** The dict literal both branches of [traverse] build. *)
Definition located (window_x window_y : spec_float) (n : node) (center : Z * Z)
  : result element :=
  cx <- add (PyInt (fst center)) (PyFloat window_x) ;;
  cy <- add (PyInt (snd center)) (PyFloat window_y) ;;
  Ok {| center := (cx, cy);
        el_description := description n;
        el_role_description := role_description n |}.

(** The closure [traverse]: the two lists it mutates are threaded
    through as [outputs]; a raised exception abandons them.  This is
    the walk on an interpreter that allows it all the nested calls it
    needs; [traverse_limited] below is the walk under the interpreter's
    recursion limit. *)
Fixpoint traverse (window_x window_y : spec_float) (n : node) (out : outputs)
  : result outputs :=
  out1 <-
    (if role_in (role n) ["AXButton"; "AXMenuButton"] && has_key (visible_bbox n)
     then
       bbox <- dict_getitem "visible_bbox" (visible_bbox n) ;;
       center <- get_center_point bbox ;;
       e <- located window_x window_y n center ;;
       Ok {| buttons := buttons out ++ [e]; text_areas := text_areas out |}
     else if role_is (role n) "AXTextArea" && has_key (visible_bbox n)
     then
       bbox <- dict_getitem "visible_bbox" (visible_bbox n) ;;
       center <- get_center_point bbox ;;
       e <- located window_x window_y n center ;;
       Ok {| buttons := buttons out; text_areas := text_areas out ++ [e] |}
     else Ok out) ;;
  (fix each_child (cs : list node) (out : outputs) : result outputs :=
     match cs with
     | [] => Ok out
     | child :: cs' =>
         out' <- traverse window_x window_y child out ;;
         each_child cs' out'
     end) (children n) out1.

Definition extract_elements (tree : node) : result (list element * list element) :=
  let out0 := {| buttons := []; text_areas := [] |} in
  pos <- dict_getitem "absolute_position" (absolute_position tree) ;;
  window_absolute_position <- str_split "," pos ;;
  p0 <- getitem window_absolute_position 0 ;;
  window_x <- float p0 ;;
  p1 <- getitem window_absolute_position 1 ;;
  window_y <- float p1 ;;
  out <- traverse window_x window_y tree out0 ;;
  Ok (buttons out, text_areas out).

Definition get_ui_elements (tree_json : node) : result (list element * list element) :=
  r <- extract_elements tree_json ;;
  let (buttons, text_areas) := r in
  Ok (buttons, text_areas).

(** ** The typing tool *)

(** The calls [type_text] makes on the input-injection library, in the
    order it makes them.  The library is taken to accept every call. *)
Inductive gui_call : Type :=
| Typewrite (message : string)
| Press (key : string).

(** [str(e)] for the exceptions of the built-ins [type_text] calls: the
    ValueError is that of [str.split] on an empty separator. *)
Definition exn_message (e : exn) : string :=
  match e with
  | KeyError key => String "'" (key ++ String "'" EmptyString)
  | IndexError => "list index out of range"
  | ValueError => "empty separator"
  | OverflowError => "int too large to convert to float"
  end.

(** The loop [for i, line in enumerate(lines)], from index [i] on;
    [count] is [len(lines)]. *)
Fixpoint type_lines (count : Z) (press_enter_after : bool) (i : Z)
  (lines : list string) (log : list gui_call) : list gui_call :=
  match lines with
  | [] => log
  | line :: rest =>
      let log1 := log ++ [Typewrite line] in
      let log2 :=
        if (i <? count - 1) || press_enter_after
        then log1 ++ [Press "enter"]
        else log1 in
      type_lines count press_enter_after (i + 1) rest log2
  end.

(** The separator of [text.split('\\n')]: the two characters backslash
    and [n]. *)
Definition backslash : ascii := Eval cbv in ascii_of_nat 92.
Definition line_break : string := String backslash (String "n" EmptyString).

(** [type_text] returns its status string; the first component is the
    sequence of calls it made. *)
Definition type_text (text : string) (press_enter_after : bool)
  : list gui_call * string :=
  match str_split "\n" text with
  | Ok lines =>
      (type_lines (Z.of_nat (List.length lines)) press_enter_after 0 lines [],
       "Success")
  | Raise e => ([], ("Error: " ++ exn_message e)%string)
  end.

(** ** Notions the properties are stated with *)

(** What [traverse] does at the node itself, before it turns to the
    children. *)
Definition visit (window_x window_y : spec_float) (n : node) (out : outputs)
  : result outputs :=
  if role_in (role n) ["AXButton"; "AXMenuButton"] && has_key (visible_bbox n)
  then
    bbox <- dict_getitem "visible_bbox" (visible_bbox n) ;;
    center <- get_center_point bbox ;;
    e <- located window_x window_y n center ;;
    Ok {| buttons := buttons out ++ [e]; text_areas := text_areas out |}
  else if role_is (role n) "AXTextArea" && has_key (visible_bbox n)
  then
    bbox <- dict_getitem "visible_bbox" (visible_bbox n) ;;
    center <- get_center_point bbox ;;
    e <- located window_x window_y n center ;;
    Ok {| buttons := buttons out; text_areas := text_areas out ++ [e] |}
  else Ok out.

(** The loop [for child in children: traverse(child)]. *)
Fixpoint traverse_children (window_x window_y : spec_float) (cs : list node)
  (out : outputs) : result outputs :=
  match cs with
  | [] => Ok out
  | child :: cs' =>
      out' <- traverse window_x window_y child out ;;
      traverse_children window_x window_y cs' out'
  end.

(** The nodes of a tree, parent before children, children in their
    order. *)
Fixpoint preorder (n : node) : list node :=
  n :: flat_map preorder (children n).

(** [subnode d t]: [d] is [t] or lies below it. *)
Inductive subnode (d : node) : node -> Prop :=
| subnode_self : subnode d d
| subnode_child : forall c t, In c (children t) -> subnode d c -> subnode d t.

(** The number of nested calls of [traverse] a tree needs. *)
Fixpoint depth (n : node) : nat :=
  S (list_max (map depth (children n))).

(** The nodes that emit: a button role, or the text-area role, with a
    bounding box. *)
Definition clickable (n : node) : bool :=
  role_in (role n) ["AXButton"; "AXMenuButton"] && has_key (visible_bbox n).

Definition text_input (n : node) : bool :=
  role_is (role n) "AXTextArea" && has_key (visible_bbox n).

(** The element a node emits. *)
Definition element_of (window_x window_y : spec_float) (n : node) : result element :=
  bbox <- dict_getitem "visible_bbox" (visible_bbox n) ;;
  center <- get_center_point bbox ;;
  located window_x window_y n center.

(** Where the window origin comes from: the first two comma-separated
    components of the root's ['absolute_position']. *)
Definition window_origin (tree : node) : result (spec_float * spec_float) :=
  pos <- dict_getitem "absolute_position" (absolute_position tree) ;;
  window_absolute_position <- str_split "," pos ;;
  p0 <- getitem window_absolute_position 0 ;;
  window_x <- float p0 ;;
  p1 <- getitem window_absolute_position 1 ;;
  window_y <- float p1 ;;
  Ok (window_x, window_y).

(** [emits wx wy n e]: [e] is the element node [n] emits. *)
Definition emits (window_x window_y : spec_float) (n : node) (e : element) : Prop :=
  element_of window_x window_y n = Ok e.

(** The node-local steps of a sequence of nodes, one after the other. *)
Fixpoint visit_all (window_x window_y : spec_float) (ns : list node)
  (out : outputs) : result outputs :=
  match ns with
  | [] => Ok out
  | n :: ns' =>
      out' <- visit window_x window_y n out ;;
      visit_all window_x window_y ns' out'
  end.

Definition qualifying (n : node) : bool := clickable n || text_input n.

(** ** The interpreter's recursion limit

    The interpreter allows a bounded depth of nested calls and raises
    RecursionError when a call would exceed it.  [frames] is the depth
    still allowed when [traverse] is called.  A call of [traverse]
    takes one level; inside it the call of [get_center_point], made
    when the node has a matching role and a box, takes one more, and so
    do the calls of built-in methods, [node.get('role')] first, on the
    interpreters that count them (CPython before 3.12):
    [builtins_count]. *)
Inductive limited (A : Type) : Type :=
| Done (r : result A)
| RecursionError.
Arguments Done {A} r.
Arguments RecursionError {A}.

Fixpoint traverse_limited (builtins_count : bool) (frames : nat)
  (window_x window_y : spec_float) (n : node) (out : outputs)
  : limited outputs :=
  match frames with
  | O => RecursionError
  | S inner =>
      if Nat.eqb inner 0 && (builtins_count || qualifying n)
      then RecursionError
      else
        match visit window_x window_y n out with
        | Raise e => Done (Raise e)
        | Ok out1 =>
            (fix each_child (cs : list node) (out : outputs)
               : limited outputs :=
               match cs with
               | [] => Done (Ok out)
               | child :: cs' =>
                   match traverse_limited builtins_count inner
                           window_x window_y child out with
                   | Done (Ok out') => each_child cs' out'
                   | Done (Raise e) => Done (Raise e)
                   | RecursionError => RecursionError
                   end
               end) (children n) out1
        end
  end.

(** [extract_elements] under the limit; its first call, [split], comes
    after the lookup of ['absolute_position']. *)
Definition extract_elements_limited (builtins_count : bool) (frames : nat)
  (tree : node) : limited (list element * list element) :=
  match absolute_position tree with
  | None => Done (Raise (KeyError "absolute_position"))
  | Some _ =>
      if builtins_count && Nat.eqb frames 0 then RecursionError
      else
        match window_origin tree with
        | Raise e => Done (Raise e)
        | Ok (window_x, window_y) =>
            match traverse_limited builtins_count frames window_x window_y tree
                    {| buttons := []; text_areas := [] |} with
            | Done (Ok out) => Done (Ok (buttons out, text_areas out))
            | Done (Raise e) => Done (Raise e)
            | RecursionError => RecursionError
            end
        end
  end.

(** A role the locator does not know: none of the three names, or no
    role at all. *)
Definition unrecognized (r : option string) : bool :=
  negb (role_in r ["AXButton"; "AXMenuButton"; "AXTextArea"]).

(** The root with another ['absolute_position']. *)
Definition with_origin (t : node) (pos : string) : node :=
  {| absolute_position := Some pos;
     role := role t;
     visible_bbox := visible_bbox t;
     description := description t;
     role_description := role_description t;
     children := children t |}.

(** The ways the window origin can fail to be two numbers, each with
    the exception the built-ins raise for it. *)
Inductive malformed_origin (t : node) : exn -> Prop :=
| origin_missing :
    absolute_position t = None ->
    malformed_origin t (KeyError "absolute_position")
| origin_first_not_a_number : forall pos a rest,
    absolute_position t = Some pos ->
    split_scan "," 0 pos = a :: rest ->
    float a = Raise ValueError ->
    malformed_origin t ValueError
| origin_single_component : forall pos a window_x,
    absolute_position t = Some pos ->
    split_scan "," 0 pos = [a] ->
    float a = Ok window_x ->
    malformed_origin t IndexError
| origin_second_not_a_number : forall pos a b rest window_x,
    absolute_position t = Some pos ->
    split_scan "," 0 pos = a :: b :: rest ->
    float a = Ok window_x ->
    float b = Raise ValueError ->
    malformed_origin t ValueError.

(** The exceptions that report a malformed window origin. *)
Definition invalid_input (e : exn) : bool :=
  match e with
  | KeyError _ | IndexError | ValueError => true
  | OverflowError => false
  end.

(** [sep in s]: [sep] occurs somewhere in [s]. *)
Fixpoint occurs (sep s : string) : bool :=
  prefix sep s ||
  match s with
  | EmptyString => false
  | String _ s' => occurs sep s'
  end.

(** The first [k] characters of a string removed. *)
Fixpoint drop (k : nat) (s : string) : string :=
  match k, s with
  | S k', String _ s' => drop k' s'
  | _, _ => s
  end.

(** What the typing tool is to send for a list of segments: each
    segment typed, enter after every segment but the last, and after the
    last one when the flag is set. *)
Fixpoint keystrokes (segments : list string) (press_enter_after : bool)
  : list gui_call :=
  match segments with
  | [] => []
  | [final] =>
      Typewrite final :: (if press_enter_after then [Press "enter"] else [])
  | segment :: rest =>
      Typewrite segment :: Press "enter" :: keystrokes rest press_enter_after
  end.

(** ** Sample trees *)

Definition leaf (r : string) (bbox : list Z) : node :=
  {| absolute_position := None; role := Some r; visible_bbox := Some bbox;
     description := None; role_description := None; children := [] |}.

Definition window (pos : string) (cs : list node) : node :=
  {| absolute_position := Some pos; role := None; visible_bbox := None;
     description := None; role_description := None; children := cs |}.

(** The example of the specification: origin (100, 200), a button at
    (0, 0, 10, 10) and a text area at (20, 20, 40, 40). *)
Definition example_tree : node :=
  window "100,200"
    [leaf "AXButton" [0; 0; 10; 10]; leaf "AXTextArea" [20; 20; 40; 40]].

(** The same button in a window whose origin has a fractional part. *)
Definition half_pixel_tree : node :=
  window "100.5,200" [leaf "AXButton" [0; 0; 10; 10]].

(** A group of unknown role, with a box, around a button. *)
Definition nested_tree : node :=
  window "0,0"
    [ {| absolute_position := None; role := Some "AXGroup";
         visible_bbox := Some [0; 0; 50; 50];
         description := None; role_description := None;
         children := [leaf "AXButton" [0; 0; 2; 2]] |} ].

(** A window inside a window, [k] times over: a tree of depth [k + 1]
    in which nothing is to be located. *)
Fixpoint deep_tree (k : nat) : node :=
  match k with
  | O => window "0,0" []
  | S k' => window "0,0" [deep_tree k']
  end.

(** The group of [nested_tree], and a node with a button role and no
    box above a text area. *)
Definition sample_group : node :=
  {| absolute_position := None; role := Some "AXGroup";
     visible_bbox := Some [0; 0; 50; 50];
     description := None; role_description := None;
     children := [leaf "AXButton" [0; 0; 2; 2]] |}.

Definition boxless_button : node :=
  {| absolute_position := None; role := Some "AXButton";
     visible_bbox := None;
     description := None; role_description := None;
     children := [leaf "AXTextArea" [0; 0; 2; 2]] |}.

(** The floats 105.0, 205.0, 130.0, 230.0 and 105.5. *)
Definition f105 : spec_float := S754_finite false 7388718138654720 (-46).
Definition f205 : spec_float := S754_finite false 7212796278210560 (-45).
Definition f130 : spec_float := S754_finite false 4573968371548160 (-45).
Definition f230 : spec_float := S754_finite false 8092405580431360 (-45).
Definition f105_5 : spec_float := S754_finite false 7423902510743552 (-46).

(** A box [traverse] can turn into an element: four coordinates, and
    a floor centre that converts to [float]. *)
Definition box_ok (n : node) : bool :=
  match visible_bbox n with
  | Some [x1; y1; x2; y2] =>
      is_ok (float_of_int ((x1 + x2) / 2)) && is_ok (float_of_int ((y1 + y2) / 2))
  | _ => false
  end.

(** Every emitting node of the tree has such a box. *)
Definition boxes_ok (t : node) : bool :=
  forallb (fun n => implb (qualifying n) (box_ok n)) (preorder t).

(** The centre of [e] is a pair of floats: the floor centre of the box
    of some node of [t], converted to [float], plus the origin. *)
Definition float_center (t : node) (window_x window_y : spec_float)
  (e : element) : Prop :=
  is_float (fst (center e)) = true /\
  is_float (snd (center e)) = true /\
  exists n x1 y1 x2 y2 fx fy,
    subnode n t /\
    visible_bbox n = Some [x1; y1; x2; y2] /\
    float_of_int ((x1 + x2) / 2) = Ok fx /\
    float_of_int ((y1 + y2) / 2) = Ok fy /\
    center e = (PyFloat (SFadd prec emax fx window_x),
                PyFloat (SFadd prec emax fy window_y)).

(** The floats 0.0, 100.0, 200.0 and 1.0. *)
Definition f0 : spec_float := S754_zero false.
Definition f100 : spec_float := S754_finite false 7036874417766400 (-46).
Definition f200 : spec_float := S754_finite false 7036874417766400 (-45).
Definition f1 : spec_float := S754_finite false 4503599627370496 (-52).

Definition plain_element (cx cy : spec_float) : element :=
  {| center := (PyFloat cx, PyFloat cy);
     el_description := None; el_role_description := None |}.

(** ** Outputs as values *)

Definition no_outputs : outputs := {| buttons := []; text_areas := [] |}.

(** The lists of [out] followed by those of [more]. *)
Definition outputs_app (out more : outputs) : outputs :=
  {| buttons := buttons out ++ buttons more;
     text_areas := text_areas out ++ text_areas more |}.

(** [extend out r]: the outcome [r] of a walk from empty lists, seen
    from the lists [out]. *)
Definition extend (out : outputs) (r : result outputs) : result outputs :=
  match r with
  | Ok more => Ok (outputs_app out more)
  | Raise e => Raise e
  end.

(** [e] is the element of node [n] with box (x1, y1, x2, y2): the floor
    centre plus the origin, and the node's two descriptions. *)
Definition located_at (window_x window_y : spec_float) (n : node)
  (x1 y1 x2 y2 : Z) (e : element) : Prop :=
  exists cx cy,
    Py.add (PyInt ((x1 + x2) / 2)) (PyFloat window_x) = Ok cx /\
    Py.add (PyInt ((y1 + y2) / 2)) (PyFloat window_y) = Ok cy /\
    e = {| center := (cx, cy);
           el_description := description n;
           el_role_description := role_description n |}.

(** ** The input-injection library, when it may fail

    A call on the library either completes or raises.  [raises log c]
    tells, after the completed calls [log], whether the call [c] raises,
    and gives the text [str(e)] of the exception.  A tool starts with no
    call made; it returns the calls that completed and its status
    string. *)

Inductive pointer_call : Type :=
| MoveTo (x y : Z)
| Click.

(** A program over the library: from the calls completed so far to
    those completed after it, and either the text of the exception that
    stopped it or its value. *)
Definition script (call A : Type) : Type :=
  list call -> list call * (string + A).

Definition script_ret {call A : Type} (a : A) : script call A :=
  fun log => (log, inr a).

Definition script_bind {call A B : Type} (m : script call A)
  (k : A -> script call B) : script call B :=
  fun log =>
    match m log with
    | (log', inr a) => k a log'
    | (log', inl msg) => (log', inl msg)
    end.

Notation "m >> k" := (script_bind m (fun _ => k))
  (at level 62, right associativity).

(** One call on the library. *)
Definition script_call {call : Type} (raises : list call -> call -> option string)
  (c : call) : script call unit :=
  fun log =>
    match raises log c with
    | Some msg => (log, inl msg)
    | None => (log ++ [c], inr tt)
    end.

(** [try: ...; return "Success"  except Exception as e: return "Error: " + str(e)]. *)
Definition attempt {call : Type} (m : script call unit) : list call * string :=
  match m [] with
  | (log, inr _) => (log, "Success")
  | (log, inl msg) => (log, ("Error: " ++ msg)%string)
  end.

Definition mouse_move_and_click (raises : list pointer_call -> pointer_call -> option string)
  (x y : Z) : list pointer_call * string :=
  attempt (script_call raises (MoveTo x y) >> script_call raises Click).

(** The loop of [type_text] over a library that may fail. *)
Fixpoint type_lines_on (raises : list gui_call -> gui_call -> option string)
  (count : Z) (press_enter_after : bool) (i : Z) (lines : list string)
  : script gui_call unit :=
  match lines with
  | [] => script_ret tt
  | line :: rest =>
      script_call raises (Typewrite line) >>
      (if (i <? count - 1) || press_enter_after
       then script_call raises (Press "enter")
       else script_ret tt) >>
      type_lines_on raises count press_enter_after (i + 1) rest
  end.

(** [type_text] over a library that may fail. *)
Definition type_text_on (raises : list gui_call -> gui_call -> option string)
  (text : string) (press_enter_after : bool) : list gui_call * string :=
  match str_split line_break text with
  | Ok lines =>
      attempt (type_lines_on raises (Z.of_nat (List.length lines))
                             press_enter_after 0 lines)
  | Raise e => ([], ("Error: " ++ exn_message e)%string)
  end.

(** A sequence of calls on the library, one after the other. *)
Fixpoint run_calls {call : Type} (raises : list call -> call -> option string)
  (cs : list call) : script call unit :=
  match cs with
  | [] => script_ret tt
  | c :: cs' => script_call raises c >> run_calls raises cs'
  end.

(** A library that accepts every call. *)
Definition never_raises {call : Type} (log : list call) (c : call) : option string :=
  None.

(** The messages typed and the number of key presses of a log. *)
Fixpoint typed (log : list gui_call) : list string :=
  match log with
  | [] => []
  | Typewrite message :: log' => message :: typed log'
  | Press _ :: log' => typed log'
  end.

Fixpoint presses (log : list gui_call) : nat :=
  match log with
  | [] => 0
  | Typewrite _ :: log' => presses log'
  | Press _ :: log' => S (presses log')
  end.

(** [l1] is an initial part of [l2]. *)
Definition initial {A : Type} (l1 l2 : list A) : Prop :=
  exists rest, l2 = l1 ++ rest.

(** ** The screen tool *)

(** What [get_screen_buttons_textarea] does besides computing: the
    lines it prints, the process it runs, its sleep, and its two calls
    on the tree provider. *)
Inductive effect : Type :=
| Print (line : string)
| Subprocess (args : list string)
| Sleep (seconds : Z)
| AskBundle (name : string)
| AskTree.

(** An exception caught by the tool: one of the built-ins of the
    locator, or one raised by the tree provider. *)
Inductive failure : Type :=
| Builtin (e : exn)
| Foreign (id : string).

(** The tool returns the screenshot with the two lists, or a string. *)
Inductive tool_result (Image : Type) : Type :=
| Screen (im : Image) (buttons text_areas : list element)
| Message (text : string).
Arguments Screen {Image} im buttons text_areas.
Arguments Message {Image} text.

Definition valid_bundle_ids : list string :=
  ["com.apple.Notes";
   "com.apple.VoiceMemos";
   "com.apple.Mail";
   "com.apple.reminders";
   "com.apple.Safari";
   "com.apple.Maps";
   "com.apple.Photos";
   "com.apple.Music";
   "com.apple.weather"].

Definition newline : string :=
  Eval cbv in String (ascii_of_nat 10) EmptyString.

(** [l[-1]]. *)
Definition getitem_last {A : Type} (l : list A) : result A :=
  match rev l with
  | a :: _ => Ok a
  | [] => Raise IndexError
  end.

Definition caught {A : Type} (r : result A) : failure + A :=
  match r with
  | Ok a => inr a
  | Raise e => inl (Builtin e)
  end.

(** [bundle_id.split('.')[-1]]. *)
Definition app_name (bundle_id : string) : result string :=
  parts <- str_split "." bundle_id ;; getitem_last parts.

Definition invalid_bundle_message : string :=
  ("Error: Invalid bundle ID. Please use one of: "
   ++ String.concat ", " valid_bundle_ids)%string.

(** The effects that open the application. *)
Definition opening (bundle_id : string) : list effect :=
  [Print ("Opening " ++ bundle_id)%string;
   Print ("Running command: open -b " ++ bundle_id)%string;
   Subprocess ["open"; "-b"; bundle_id];
   Sleep 5].

Section ScreenTool.

(** The tree provider and the interpreter's rendering of an exception
    ([str(e)] and [traceback.format_exc()]) are taken as given;
    printing, running the process and sleeping are taken to complete. *)
Variables Image Bundle : Type.
Variable get_app_bundle : string -> failure + Bundle.
Variable get_tree_screenshot : Bundle -> failure + (node * Image * Image).
Variable describe : failure -> string.
Variable format_exc : failure -> string.

(** The [except] branch: two lines printed, the report returned. *)
Definition report (log : list effect) (e : failure)
  : list effect * tool_result Image :=
  (log ++ [Print ("Error: " ++ describe e)%string;
           Print ("Traceback: " ++ format_exc e)%string],
   Message ("Error: " ++ describe e ++ newline
            ++ "Traceback: " ++ format_exc e)%string).

Definition get_screen_buttons_textarea (bundle_id : string)
  : list effect * tool_result Image :=
  if negb (existsb (String.eqb bundle_id) valid_bundle_ids)
  then ([], Message invalid_bundle_message)
  else
    let log := opening bundle_id in
    match caught (parts <- str_split "." bundle_id ;; getitem_last parts) with
    | inl e => report log e
    | inr name =>
        let log := log ++ [AskBundle name] in
        match get_app_bundle name with
        | inl e => report log e
        | inr bundle =>
            let log := log ++ [AskTree] in
            match get_tree_screenshot bundle with
            | inl e => report log e
            | inr (tree, im, im_seg) =>
                match caught (get_ui_elements tree) with
                | inl e => report log e
                | inr (buttons, text_areas) =>
                    (log, Screen im buttons text_areas)
                end
            end
        end
    end.

End ScreenTool.

(** A provider for sample runs: the bundle is the name asked for, the
    screenshot a number. *)
Definition sample_bundle (name : string) : failure + string := inr name.

Definition sample_screenshot (tree : node) (bundle : string)
  : failure + (node * Z * Z) :=
  inr (tree, 1, 2).

Definition sample_text (e : failure) : string :=
  match e with
  | Builtin e => exn_message e
  | Foreign id => id
  end.

(** A library on which the first click fails. *)
Definition click_fails (log : list pointer_call) (c : pointer_call)
  : option string :=
  match c with
  | Click => Some "no display"
  | MoveTo _ _ => None
  end.

(** A library on which enter cannot be pressed. *)
Definition enter_fails (log : list gui_call) (c : gui_call) : option string :=
  match c with
  | Press _ => Some "no display"
  | Typewrite _ => None
  end.

(** A button whose box has three coordinates. *)
Definition short_box_tree : node :=
  window "0,0" [leaf "AXButton" [0; 0; 2; 2]; leaf "AXButton" [0; 0; 2]].

(** A window of labels only. *)
Definition labels_tree : node :=
  window "0,0" [leaf "AXStaticText" [0; 0; 2; 2]; window "1,1" []].

(** * Properties *)

(** ** The error monad *)

Lemma bind_ext {A B : Type} (m : result A) (k1 k2 : A -> result B) :
  (forall a, k1 a = k2 a) -> bind m k1 = bind m k2.
Proof. intros H. destruct m; simpl; auto. Qed.

Lemma bind_ok_inv {A B : Type} (m : result A) (k : A -> result B) (b : B) :
  bind m k = Ok b -> exists a, m = Ok a /\ k a = Ok b.
Proof. destruct m as [a|e]; simpl; intros H; [eauto | discriminate]. Qed.

Lemma bind_assoc {A B C : Type} (m : result A) (k : A -> result B)
  (h : B -> result C) :
  bind (bind m k) h = bind m (fun a => bind (k a) h).
Proof. destruct m; reflexivity. Qed.

Lemma is_ok_true {A : Type} (m : result A) :
  is_ok m = true -> exists a, m = Ok a.
Proof. destruct m as [a|e]; [eauto | discriminate]. Qed.

(** [ok_inv H a Ha] opens a hypothesis [bind m k = Ok b]. *)
Ltac ok_inv H a Ha := apply bind_ok_inv in H as (a & Ha & H).

(** ** Lists paired by a relation *)

Section Paired.

Context {A B : Type} (R : A -> B -> Prop).

Lemma Forall2_In_left l l' a :
  Forall2 R l l' -> In a l -> exists b, R a b /\ In b l'.
Proof.
  induction 1 as [|x y l l' Hxy _ IH]; intros Hin; [destruct Hin|].
  destruct Hin as [<- | Hin].
  - exists y. split; [assumption | now left].
  - destruct (IH Hin) as (b & Hb & Hin').
    exists b. split; [assumption | now right].
Qed.

Lemma Forall2_In_right l l' b :
  Forall2 R l l' -> In b l' -> exists a, R a b /\ In a l.
Proof.
  induction 1 as [|x y l l' Hxy _ IH]; intros Hin; [destruct Hin|].
  destruct Hin as [<- | Hin].
  - exists x. split; [assumption | now left].
  - destruct (IH Hin) as (a & Ha & Hin').
    exists a. split; [assumption | now right].
Qed.

Lemma Forall2_nth_error_left l l' :
  Forall2 R l l' ->
  forall k a, nth_error l k = Some a ->
              exists b, nth_error l' k = Some b /\ R a b.
Proof.
  induction 1 as [|x y l l' Hxy _ IH]; intros [|k] a Hk; try discriminate Hk.
  - injection Hk as <-. exists y. split; [reflexivity | assumption].
  - cbn [nth_error] in *. now apply IH.
Qed.

End Paired.

(** ** The conversion from [int] to [float]

    An [int] below 2^53 in magnitude, which covers every pixel
    coordinate, converts without rounding and without overflow. *)

Lemma digits2_size p : digits2_pos p = Pos.size p.
Proof. induction p; cbn [digits2_pos Pos.size]; now rewrite ?IHp. Qed.

Lemma iter_xO_size p k : Pos.size (Pos.iter xO p k) = (Pos.size p + k)%positive.
Proof.
  induction k as [|k IH] using Pos.peano_ind.
  - cbn. lia.
  - rewrite Pos.iter_succ. cbn [Pos.size]. rewrite IH. lia.
Qed.

Lemma iter_xO_mul p k : Zpos (Pos.iter xO p k) = Zpos p * 2 ^ Zpos k.
Proof.
  induction k as [|k IH] using Pos.peano_ind.
  - cbn [Pos.iter]. lia.
  - rewrite Pos.iter_succ, Pos2Z.inj_xO, IH, Pos2Z.inj_succ, Z.pow_succ_r by lia.
    lia.
Qed.

Lemma size_bound p : Zpos p < 2 ^ 53 -> Zpos (Pos.size p) <= 53.
Proof.
  intros H. destruct (Z_le_gt_dec (Zpos (Pos.size p)) 53) as [|Hgt]; [assumption|].
  pose proof (Pos.size_le p) as Hle.
  assert (Hpow : 2 ^ 54 <= 2 ^ Zpos (Pos.size p)) by (apply Z.pow_le_mono_r; lia).
  assert (Hz : 2 ^ Zpos (Pos.size p) <= Zpos p~0).
  { rewrite <- Pos2Z.inj_pow. apply Pos2Z.pos_le_pos. exact Hle. }
  rewrite Pos2Z.inj_xO in Hz. change (2 ^ 54) with (2 * 2 ^ 53) in Hpow. lia.
Qed.

Lemma binary_round_aux_exact s m e :
  Zpos (Pos.size m) = 53 -> -1074 <= e <= 971 ->
  binary_round_aux prec emax s (Zpos m) e loc_Exact = S754_finite s m e.
Proof.
  intros Hd He. unfold binary_round_aux, shr_fexp.
  cbn [Zdigits2]. rewrite digits2_size, Hd.
  assert (Hf : fexp prec emax (53 + e) - e = 0).
  { unfold fexp, emin, prec, emax. lia. }
  rewrite Hf.
  cbn [shr shr_record_of_loc shr_m loc_of_shr_record round_nearest_even Zdigits2].
  rewrite digits2_size, Hd, Hf. cbn [shr shr_record_of_loc shr_m].
  replace (e <=? emax - prec) with true; [reflexivity|].
  symmetry. apply Z.leb_le. unfold emax, prec. lia.
Qed.

Lemma binary_round_small s p :
  Zpos p < 2 ^ 53 ->
  exists m e,
    binary_round prec emax s p 0 = S754_finite s m e /\
    e <= 0 /\ Zpos m = Zpos p * 2 ^ (- e).
Proof.
  intros Hp. pose proof (size_bound p Hp) as Hd.
  unfold binary_round. rewrite digits2_size.
  assert (Hf : fexp prec emax (Zpos (Pos.size p) + 0) = Zpos (Pos.size p) - 53).
  { unfold fexp, emin, prec, emax. lia. }
  rewrite Hf. unfold shl_align.
  destruct (Zpos (Pos.size p) - 53 - 0) as [|k|k] eqn:Hk; try lia.
  - exists p, 0. rewrite binary_round_aux_exact by lia.
    repeat split; lia.
  - exists (Pos.iter xO p k), (Zpos (Pos.size p) - 53).
    rewrite binary_round_aux_exact.
    + repeat split; [lia|]. rewrite iter_xO_mul. f_equal. f_equal. lia.
    + rewrite iter_xO_size. lia.
    + lia.
Qed.

Lemma float_of_int_exact z :
  Z.abs z < 2 ^ 53 ->
  exists f, float_of_int z = Ok f /\ float_eq_int f z = true.
Proof.
  intros Hz. unfold float_of_int, binary_normalize.
  destruct z as [|p|p].
  - exists (S754_zero false). split; reflexivity.
  - destruct (binary_round_small false p Hz) as (m & e & -> & He & Hm).
    exists (S754_finite false m e). split; [reflexivity|].
    cbn [float_eq_int]. destruct (0 <=? e) eqn:E.
    + apply Z.leb_le in E. assert (e = 0) as -> by lia.
      rewrite Z.shiftl_0_r. apply Z.eqb_eq. cbn in Hm. lia.
    + apply Z.eqb_eq. rewrite Z.shiftl_mul_pow2 by lia. exact Hm.
  - assert (Hp : Zpos p < 2 ^ 53) by (rewrite <- Pos2Z.opp_pos, Z.abs_opp in Hz; exact Hz).
    destruct (binary_round_small true p Hp) as (m & e & -> & He & Hm).
    exists (S754_finite true m e). split; [reflexivity|].
    cbn [float_eq_int]. destruct (0 <=? e) eqn:E.
    + apply Z.leb_le in E. assert (e = 0) as -> by lia.
      rewrite Z.shiftl_0_r. apply Z.eqb_eq. cbn in Hm. lia.
    + apply Z.eqb_eq. rewrite Z.shiftl_mul_pow2 by lia. lia.
Qed.

(** [float(str)] raises nothing but [ValueError]. *)
Lemma float_raises s e : float s = Raise e -> e = ValueError.
Proof.
  unfold float.
  destruct (drop_underscores None _) as [l|]; [|now intros [= <-]].
  destruct (parse_decimal l); [discriminate|].
  destruct (parse_inf_nan l); [discriminate | now intros [= <-]].
Qed.

(** ** [str.split] *)

Lemma drop_zero s : drop 0 s = s.
Proof. destruct s; reflexivity. Qed.

Lemma drop_length s k : (String.length (drop k s) <= String.length s)%nat.
Proof.
  revert s. induction k as [|k IH]; intros [|c s]; cbn [drop String.length]; try lia.
  specialize (IH s). lia.
Qed.

Lemma prefix_split sep : forall s,
  prefix sep s = true -> s = (sep ++ drop (String.length sep) s)%string.
Proof.
  induction sep as [|a sep IH]; intros s H.
  - cbn [String.length append]. now rewrite drop_zero.
  - destruct s as [|b s]; cbn [prefix] in H; [discriminate|].
    destruct (ascii_dec a b) as [<-|]; [|discriminate].
    cbn [String.length drop append]. f_equal. now apply IH.
Qed.

Lemma prefix_append sep : forall s r,
  prefix sep s = true -> prefix sep (s ++ r)%string = true.
Proof.
  induction sep as [|a sep IH]; intros s r H;
    [destruct (s ++ r)%string; reflexivity|].
  destruct s as [|b s]; cbn [prefix] in H; [discriminate|].
  cbn [append prefix]. destruct (ascii_dec a b); [now apply IH | discriminate].
Qed.

Section Split.

Variable sep : string.

Lemma split_scan_skip s : forall k,
  split_scan sep k s = split_scan sep 0 (drop k s).
Proof.
  induction s as [|c s IH]; intros [|k]; try reflexivity.
  cbn [split_scan drop]. apply IH.
Qed.

Lemma split_scan_nonempty s k : split_scan sep k s <> [].
Proof.
  revert k. induction s as [|c s IH]; intros k; cbn [split_scan]; [discriminate|].
  destruct k as [|k]; [|apply IH].
  destruct (prefix sep (String c s)); [discriminate|].
  specialize (IH 0%nat). destruct (split_scan sep 0 s); [contradiction | discriminate].
Qed.

Lemma concat_cons_head c l :
  l <> [] -> String.concat sep (cons_head c l) = String c (String.concat sep l).
Proof.
  destruct l as [|seg [|seg' segs]]; intros H;
    [contradiction | reflexivity | reflexivity].
Qed.

Lemma concat_empty_head l :
  l <> [] ->
  String.concat sep (EmptyString :: l) = (sep ++ String.concat sep l)%string.
Proof. destruct l; intros H; [contradiction | reflexivity]. Qed.

(** The first piece is a prefix of the text. *)
Lemma split_scan_head s :
  exists seg segs r, split_scan sep 0 s = seg :: segs /\ s = (seg ++ r)%string.
Proof.
  induction s as [|c s (seg & segs & r & Hs & Hr)].
  - exists EmptyString, [], EmptyString. split; reflexivity.
  - cbn [split_scan]. destruct (prefix sep (String c s)).
    + exists EmptyString, (split_scan sep (pred (String.length sep)) s), (String c s).
      split; reflexivity.
    + rewrite Hs. exists (String c seg), segs, r. cbn [cons_head append].
      split; [reflexivity | now f_equal].
Qed.

(** A text in which the separator does not occur is one piece. *)
Lemma split_scan_whole s :
  occurs sep s = false -> split_scan sep 0 s = [s].
Proof.
  induction s as [|c s IH]; intros H; [reflexivity|].
  cbn [occurs] in H. apply orb_false_iff in H as [Hp Hs].
  cbn [split_scan]. rewrite Hp, (IH Hs). reflexivity.
Qed.

Hypothesis sep_nonempty : sep <> EmptyString.

Lemma occurs_empty : occurs sep EmptyString = false.
Proof. destruct sep; [contradiction | reflexivity]. Qed.

(** The scan goes by the length of the text: past a separator it
    restarts on a strictly shorter text. *)
Lemma by_length (P : string -> Prop) :
  (forall s, (forall s', (String.length s' < String.length s)%nat -> P s') -> P s) ->
  forall s, P s.
Proof.
  intros step s.
  assert (H : forall n s, (String.length s < n)%nat -> P s).
  { clear s. induction n as [|n IH]; intros s Hlen; [lia|].
    apply step. intros s' Hs'. apply IH. lia. }
  apply (H (S (String.length s))). lia.
Qed.

(** Joining the pieces with the separator gives the text back. *)
Lemma split_scan_concat s : String.concat sep (split_scan sep 0 s) = s.
Proof.
  induction s as [[|c s] IH] using by_length; [reflexivity|].
  cbn [split_scan]. destruct (prefix sep (String c s)) eqn:Hp.
  - rewrite split_scan_skip, concat_empty_head by apply split_scan_nonempty.
    apply prefix_split in Hp.
    destruct sep as [|a sep']; [contradiction|].
    cbn [String.length pred drop] in Hp |- *. rewrite IH; [now symmetry|].
    pose proof (drop_length s (String.length sep')). cbn [String.length]. lia.
  - rewrite concat_cons_head by apply split_scan_nonempty.
    f_equal. apply IH. cbn [String.length]. lia.
Qed.

(** No piece contains the separator. *)
Lemma split_scan_free s :
  Forall (fun seg => occurs sep seg = false) (split_scan sep 0 s).
Proof.
  induction s as [[|c s] IH] using by_length.
  - constructor; [exact occurs_empty | constructor].
  - cbn [split_scan]. destruct (prefix sep (String c s)) eqn:Hp.
    + constructor; [exact occurs_empty|]. rewrite split_scan_skip. apply IH.
      pose proof (drop_length s (pred (String.length sep))).
      cbn [String.length]. lia.
    + assert (Hs : Forall (fun seg => occurs sep seg = false) (split_scan sep 0 s))
        by (apply IH; cbn [String.length]; lia).
      destruct (split_scan_head s) as (seg & segs & r & Hsplit & Hr).
      rewrite Hsplit in *. cbn [cons_head].
      inversion Hs as [|? ? Hseg Hsegs]; subst.
      constructor; [|exact Hsegs]. cbn [occurs]. rewrite Hseg, orb_false_r.
      destruct (prefix sep (String c seg)) eqn:Hq; [|reflexivity].
      apply prefix_append with (r := r) in Hq. cbn [append] in Hq.
      rewrite Hq in Hp. discriminate.
Qed.

End Split.

(** A one-character separator cuts after a piece that is free of it. *)
Lemma split_scan_cut c a r :
  occurs (String c EmptyString) a = false ->
  split_scan (String c EmptyString) 0 (a ++ String c r)%string
  = a :: split_scan (String c EmptyString) 0 r.
Proof.
  induction a as [|x a IH]; intros H.
  - cbn [append split_scan prefix String.length pred].
    destruct (ascii_dec c c) as [_|Hne]; [|contradiction].
    destruct r; reflexivity.
  - cbn [occurs] in H. apply orb_false_iff in H as [Hp Ha].
    cbn [append split_scan].
    assert (Hp' : prefix (String c EmptyString) (String x (a ++ String c r)) = false).
    { cbn [prefix] in *. destruct (ascii_dec c x); [|reflexivity].
      destruct a; discriminate Hp. }
    rewrite Hp', (IH Ha). reflexivity.
Qed.

(** ** The typing loop *)

Lemma type_lines_keystrokes flag lines :
  forall i log,
    type_lines (i + Z.of_nat (List.length lines)) flag i lines log
    = log ++ keystrokes lines flag.
Proof.
  induction lines as [|line rest IH]; intros i log.
  - cbn [type_lines keystrokes]. now rewrite app_nil_r.
  - cbn [type_lines]. destruct rest as [|next rest].
    + cbn [List.length type_lines keystrokes].
      replace (i <? i + Z.of_nat 1 - 1) with false by (symmetry; apply Z.ltb_ge; lia).
      cbn [orb]. destruct flag; rewrite <- ?app_assoc; reflexivity.
    + replace (i <? i + Z.of_nat (List.length (line :: next :: rest)) - 1) with true
        by (symmetry; apply Z.ltb_lt; cbn [List.length]; lia).
      cbn [orb].
      replace (i + Z.of_nat (List.length (line :: next :: rest)))
        with ((i + 1) + Z.of_nat (List.length (next :: rest)))
        by (cbn [List.length]; lia).
      rewrite IH, <- !app_assoc. reflexivity.
Qed.

(** ** Trees *)

Lemma node_forall_ind (P : node -> Prop) :
  (forall ap r b d rd cs, Forall P cs -> P (Node ap r b d rd cs)) ->
  forall n, P n.
Proof.
  intros step. fix IH 1. intros [ap r b d rd cs].
  apply step. induction cs as [|c cs IHcs]; constructor; [apply IH | exact IHcs].
Qed.

Lemma preorder_cons n : preorder n = n :: flat_map preorder (children n).
Proof. destruct n; reflexivity. Qed.

Lemma subnode_preorder d t : subnode d t <-> In d (preorder t).
Proof.
  split.
  - induction 1 as [|c t Hc _ IH]; rewrite preorder_cons.
    + now left.
    + right. apply in_flat_map. eauto.
  - revert d. induction t as [ap r b dd rd cs IH] using node_forall_ind.
    intros d. rewrite preorder_cons. cbn [children]. intros [<- | Hin].
    + constructor.
    + apply in_flat_map in Hin as (c & Hc & Hd).
      rewrite Forall_forall in IH.
      apply subnode_child with (c := c); [exact Hc | now apply IH].
Qed.

(** ** Roles *)

Lemma role_in_buttons r :
  role_in r ["AXButton"; "AXMenuButton"] = true <->
  r = Some "AXButton" \/ r = Some "AXMenuButton".
Proof.
  destruct r as [s|]; cbn [role_in existsb].
  - rewrite !orb_true_iff, !String.eqb_eq. split.
    + intros [H|[H|H]]; [left | right | discriminate]; now subst.
    + intros [H|H]; injection H as ->; auto.
  - split; [discriminate | intros [H|H]; discriminate].
Qed.

Lemma role_is_iff r name : role_is r name = true <-> r = Some name.
Proof.
  destruct r as [s|]; cbn [role_is].
  - rewrite String.eqb_eq. split; [now intros -> | now intros [= ->]].
  - split; discriminate.
Qed.

Lemma clickable_not_text_input n : clickable n = true -> text_input n = false.
Proof.
  unfold clickable, text_input. intros H.
  apply andb_true_iff in H as [H _]. apply role_in_buttons in H.
  destruct H as [-> | ->]; reflexivity.
Qed.

Lemma unrecognized_not_qualifying n :
  unrecognized (role n) = true -> clickable n = false /\ text_input n = false.
Proof.
  unfold unrecognized, clickable, text_input. intros H.
  apply negb_true_iff in H. split.
  - destruct (role_in (role n) ["AXButton"; "AXMenuButton"]) eqn:E; [|reflexivity].
    apply role_in_buttons in E. destruct E as [E|E]; rewrite E in H; discriminate H.
  - destruct (role_is (role n) "AXTextArea") eqn:E; [|reflexivity].
    apply role_is_iff in E. rewrite E in H. discriminate H.
Qed.

Lemma filter_qualifying_length ns :
  List.length (filter qualifying ns)
  = (List.length (filter clickable ns) + List.length (filter text_input ns))%nat.
Proof.
  induction ns as [|n ns IH]; [reflexivity|].
  cbn [filter]. unfold qualifying at 1.
  destruct (clickable n) eqn:Ec.
  - rewrite (clickable_not_text_input n Ec). cbn [orb List.length]. lia.
  - destruct (text_input n); cbn [orb List.length]; lia.
Qed.

(** ** The walk, for a fixed window origin *)

Section Walk.

Variables wx wy : spec_float.

(** *** The walk is the pre-order sequence of node-local steps *)

Lemma traverse_unfold n out :
  traverse wx wy n out
  = bind (visit wx wy n out) (traverse_children wx wy (children n)).
Proof.
  destruct n as [ap r b d rd cs].
  unfold visit. cbn [traverse].
  apply bind_ext. intros out1. cbn [children].
  revert out1. induction cs as [|c cs IH]; intros out1.
  - reflexivity.
  - cbn [traverse_children]. apply bind_ext. intros out2. apply IH.
Qed.

Lemma visit_all_app ns1 ns2 out :
  visit_all wx wy (ns1 ++ ns2) out
  = bind (visit_all wx wy ns1 out) (visit_all wx wy ns2).
Proof.
  revert out. induction ns1 as [|n ns1 IH]; intros out; cbn [visit_all app].
  - reflexivity.
  - rewrite bind_assoc. apply bind_ext. intros out1. apply IH.
Qed.

Lemma traverse_children_preorder cs :
  Forall (fun c => forall out,
              traverse wx wy c out = visit_all wx wy (preorder c) out) cs ->
  forall out,
    traverse_children wx wy cs out = visit_all wx wy (flat_map preorder cs) out.
Proof.
  induction 1 as [|c cs Hc _ IH]; intros out.
  - reflexivity.
  - cbn [traverse_children flat_map]. rewrite visit_all_app, Hc.
    apply bind_ext. exact IH.
Qed.

Lemma traverse_preorder n :
  forall out, traverse wx wy n out = visit_all wx wy (preorder n) out.
Proof.
  induction n as [ap r b d rd cs IH] using node_forall_ind. intros out.
  rewrite traverse_unfold, preorder_cons.
  cbn [visit_all children]. apply bind_ext. intros out1.
  apply traverse_children_preorder. exact IH.
Qed.

Lemma traverse_with_origin t pos out :
  traverse wx wy (with_origin t pos) out = traverse wx wy t out.
Proof. rewrite !traverse_unfold. reflexivity. Qed.

(** *** The node-local step *)

Lemma visit_cases n out :
  visit wx wy n out =
  if clickable n then
    e <- element_of wx wy n ;;
    Ok {| buttons := buttons out ++ [e]; text_areas := text_areas out |}
  else if text_input n then
    e <- element_of wx wy n ;;
    Ok {| buttons := buttons out; text_areas := text_areas out ++ [e] |}
  else Ok out.
Proof.
  assert (Hthen : forall k : element -> result outputs,
             (bbox <- dict_getitem "visible_bbox" (visible_bbox n) ;;
              center <- get_center_point bbox ;;
              e <- located wx wy n center ;; k e)
             = (e <- element_of wx wy n ;; k e)).
  { intros k. unfold element_of.
    destruct (visible_bbox n) as [bbox|]; cbn [dict_getitem bind]; [|reflexivity].
    destruct (get_center_point bbox); reflexivity. }
  unfold visit, clickable, text_input. rewrite !Hthen. reflexivity.
Qed.

(** A step adds one element to one list, or nothing. *)
Lemma visit_ok n out out' :
  visit wx wy n out = Ok out' ->
  (clickable n = true /\ text_input n = false /\
   exists e, emits wx wy n e /\
             buttons out' = buttons out ++ [e] /\ text_areas out' = text_areas out)
  \/ (clickable n = false /\ text_input n = true /\
      exists e, emits wx wy n e /\
                buttons out' = buttons out /\ text_areas out' = text_areas out ++ [e])
  \/ (clickable n = false /\ text_input n = false /\ out' = out).
Proof.
  rewrite visit_cases. destruct (clickable n) eqn:Ec.
  - intros H. ok_inv H e He. injection H as <-.
    left. repeat split; eauto using clickable_not_text_input.
  - destruct (text_input n) eqn:Et.
    + intros H. ok_inv H e He. injection H as <-.
      right; left. repeat split; eauto.
    + intros [= <-]. right; right. auto.
Qed.

(** *** The element of a node *)

Lemma emits_inv n e :
  emits wx wy n e ->
  exists x1 y1 x2 y2 fx fy,
    visible_bbox n = Some [x1; y1; x2; y2] /\
    float_of_int ((x1 + x2) / 2) = Ok fx /\
    float_of_int ((y1 + y2) / 2) = Ok fy /\
    e = {| center := (PyFloat (SFadd prec emax fx wx),
                      PyFloat (SFadd prec emax fy wy));
           el_description := description n;
           el_role_description := role_description n |}.
Proof.
  unfold emits, element_of.
  destruct (visible_bbox n) as [[|x1 [|y1 [|x2 [|y2 [|extra bbox]]]]]|];
    cbn [dict_getitem bind get_center_point]; try discriminate.
  unfold located, add. cbn [fst snd].
  destruct (float_of_int ((x1 + x2) / 2)) as [fx|] eqn:Hx; cbn [bind]; [|discriminate].
  destruct (float_of_int ((y1 + y2) / 2)) as [fy|] eqn:Hy; cbn [bind]; [|discriminate].
  intros [= <-]. exists x1, y1, x2, y2, fx, fy. auto.
Qed.

Lemma emits_center n e x1 y1 x2 y2 :
  emits wx wy n e ->
  visible_bbox n = Some [x1; y1; x2; y2] ->
  exists cx cy,
    add (PyInt ((x1 + x2) / 2)) (PyFloat wx) = Ok cx /\
    add (PyInt ((y1 + y2) / 2)) (PyFloat wy) = Ok cy /\
    e = {| center := (cx, cy);
           el_description := description n;
           el_role_description := role_description n |}.
Proof.
  intros He Hb. apply emits_inv in He
    as (x1' & y1' & x2' & y2' & fx & fy & Hb' & Hx & Hy & ->).
  rewrite Hb in Hb'. injection Hb' as <- <- <- <-.
  unfold add. rewrite Hx, Hy. cbn [bind]. eauto.
Qed.

(** A node emits exactly when its box is in order. *)
Lemma box_ok_emits n : box_ok n = true <-> exists e, emits wx wy n e.
Proof.
  unfold box_ok, emits, element_of. split.
  - destruct (visible_bbox n) as [[|x1 [|y1 [|x2 [|y2 [|extra bbox]]]]]|];
      try discriminate.
    intros H. apply andb_true_iff in H as [Hx Hy].
    apply is_ok_true in Hx as [fx Hx]. apply is_ok_true in Hy as [fy Hy].
    cbn [dict_getitem bind get_center_point]. unfold located, add. cbn [fst snd].
    rewrite Hx, Hy. cbn [bind]. eauto.
  - intros [e He]. apply emits_inv in He
      as (x1 & y1 & x2 & y2 & fx & fy & -> & -> & -> & _). reflexivity.
Qed.

(** *** The outputs of a sequence of steps *)

Lemma visit_all_ok ns :
  forall out out',
    visit_all wx wy ns out = Ok out' ->
    exists bs ts,
      buttons out' = buttons out ++ bs /\
      text_areas out' = text_areas out ++ ts /\
      Forall2 (emits wx wy) (filter clickable ns) bs /\
      Forall2 (emits wx wy) (filter text_input ns) ts.
Proof.
  induction ns as [|n ns IH]; intros out out' H; cbn [visit_all] in H.
  - injection H as <-. exists [], []. rewrite !app_nil_r. repeat split; constructor.
  - ok_inv H out1 Hv.
    apply IH in H as (bs & ts & Hb & Ht & Fb & Ft).
    cbn [filter].
    apply visit_ok in Hv
      as [(Ec & Et & e & He & Hb1 & Ht1)
         |[(Ec & Et & e & He & Hb1 & Ht1)|(Ec & Et & ->)]];
      rewrite Ec, Et.
    + exists (e :: bs), ts. rewrite Hb, Hb1, Ht, Ht1, <- app_assoc.
      repeat split; auto using Forall2_cons.
    + exists bs, (e :: ts). rewrite Hb, Hb1, Ht, Ht1, <- app_assoc.
      repeat split; auto using Forall2_cons.
    + exists bs, ts. auto.
Qed.

Lemma visit_all_succeeds ns :
  forallb (fun n => implb (qualifying n) (box_ok n)) ns = true ->
  forall out, is_ok (visit_all wx wy ns out) = true.
Proof.
  induction ns as [|n ns IH]; intros Hall out; cbn [visit_all]; [reflexivity|].
  cbn [forallb] in Hall. apply andb_true_iff in Hall as [Hn Hns].
  unfold qualifying in Hn. rewrite visit_cases.
  destruct (clickable n); [|destruct (text_input n)]; cbn [orb implb] in Hn.
  - apply box_ok_emits in Hn as [e He]. unfold emits in He. rewrite He.
    cbn [bind]. now apply IH.
  - apply box_ok_emits in Hn as [e He]. unfold emits in He. rewrite He.
    cbn [bind]. now apply IH.
  - cbn [bind]. now apply IH.
Qed.

(** *** A node that emits nothing *)

(** A node that is neither clickable nor a text input adds nothing
    and raises nothing, and the walk from it is the sequence of steps
    over the pre-order of its children: every emitting node below it
    has its element in the lists. *)
Lemma silent_node n out :
  clickable n = false ->
  text_input n = false ->
  visit wx wy n out = Ok out /\
  traverse wx wy n out = visit_all wx wy (flat_map preorder (children n)) out /\
  forall out',
    traverse wx wy n out = Ok out' ->
    (forall d, subnode d n -> clickable d = true ->
               exists e, emits wx wy d e /\ In e (buttons out')) /\
    (forall d, subnode d n -> text_input d = true ->
               exists e, emits wx wy d e /\ In e (text_areas out')) /\
    List.length (buttons out')
    = (List.length (buttons out)
       + List.length (filter clickable (flat_map preorder (children n))))%nat /\
    List.length (text_areas out')
    = (List.length (text_areas out)
       + List.length (filter text_input (flat_map preorder (children n))))%nat.
Proof.
  intros Hc Ht.
  assert (Hv : visit wx wy n out = Ok out).
  { rewrite visit_cases, Hc, Ht. reflexivity. }
  assert (Hw : traverse wx wy n out
               = visit_all wx wy (flat_map preorder (children n)) out).
  { rewrite traverse_preorder, preorder_cons. cbn [visit_all].
    rewrite Hv. reflexivity. }
  split; [exact Hv|]. split; [exact Hw|].
  intros out' Hout. rewrite Hw in Hout.
  apply visit_all_ok in Hout as (bs & ts & Hb & Htx & Fb & Ft).
  assert (Hbelow : forall p d,
             p n = false -> subnode d n -> p d = true ->
             In d (filter p (flat_map preorder (children n)))).
  { intros p d Hpn Hd Hpd. apply filter_In. split; [|exact Hpd].
    apply subnode_preorder in Hd. rewrite preorder_cons in Hd.
    destruct Hd as [<- | Hd]; [|exact Hd].
    rewrite Hpn in Hpd. discriminate Hpd. }
  repeat split.
  - intros d Hd Hcd.
    destruct (Forall2_In_left _ _ _ d Fb (Hbelow clickable d Hc Hd Hcd))
      as (e & He & Hin).
    exists e. split; [exact He|]. rewrite Hb. apply in_or_app. now right.
  - intros d Hd Htd.
    destruct (Forall2_In_left _ _ _ d Ft (Hbelow text_input d Ht Hd Htd))
      as (e & He & Hin).
    exists e. split; [exact He|]. rewrite Htx. apply in_or_app. now right.
  - rewrite Hb, length_app, (Forall2_length Fb). reflexivity.
  - rewrite Htx, length_app, (Forall2_length Ft). reflexivity.
Qed.

(** *** The walk under the recursion limit *)

(** With a level to spare at the deepest node the limit is not met. *)
Lemma traverse_limited_enough builtins_count frames :
  forall n out,
    (depth n < frames)%nat ->
    traverse_limited builtins_count frames wx wy n out
    = Done (traverse wx wy n out).
Proof.
  induction frames as [|inner IH]; intros [ap r b d rd cs] out Hd; [lia|].
  rewrite traverse_unfold. cbn [traverse_limited children].
  cbn [depth children] in Hd. apply PeanoNat.lt_S_n in Hd.
  destruct inner as [|inner]; [lia|]. cbn [Nat.eqb andb].
  destruct (visit wx wy _ out) as [out1|e]; [|reflexivity]. cbn [bind].
  assert (Hcs : Forall (fun c => (depth c < S inner)%nat) cs).
  { apply Forall_forall. intros c Hc.
    assert (Hle : (list_max (map depth cs) <= list_max (map depth cs))%nat) by lia.
    apply list_max_le in Hle. rewrite Forall_map, Forall_forall in Hle.
    specialize (Hle c Hc). lia. }
  clear Hd. revert out1. induction Hcs as [|c cs Hc _ IHcs]; intros out1.
  - reflexivity.
  - cbn [traverse_children]. rewrite (IH c out1 Hc).
    destruct (traverse wx wy c out1) as [out2|e]; [apply IHcs | reflexivity].
Qed.

(** Whenever the limited walk is done, it is with the outcome of
    [traverse]. *)
Lemma traverse_limited_done builtins_count frames :
  forall n out r,
    traverse_limited builtins_count frames wx wy n out = Done r ->
    r = traverse wx wy n out.
Proof.
  induction frames as [|inner IH]; intros [ap rl b d rd cs] out r H;
    [discriminate H|].
  rewrite traverse_unfold. cbn [traverse_limited children] in H |- *.
  destruct (Nat.eqb inner 0 && _); [discriminate H|].
  destruct (visit wx wy _ out) as [out1|e]; [|now injection H as <-].
  cbn [bind]. revert out1 H. induction cs as [|c cs IHcs]; intros out1 H.
  - now injection H as <-.
  - cbn [traverse_children].
    destruct (traverse_limited builtins_count inner wx wy c out1)
      as [[out2|e]|] eqn:Hc; [| |discriminate H].
    + rewrite <- (IH c out1 _ Hc). cbn [bind]. now apply IHcs.
    + rewrite <- (IH c out1 _ Hc). cbn [bind]. now injection H as <-.
Qed.

(** A tree deeper than the limit does not come back with lists. *)
Lemma traverse_limited_short builtins_count frames :
  forall n out,
    (frames < depth n)%nat ->
    traverse_limited builtins_count frames wx wy n out = RecursionError \/
    exists e, traverse_limited builtins_count frames wx wy n out = Done (Raise e).
Proof.
  induction frames as [|inner IH]; intros [ap r b d rd cs] out Hd; [now left|].
  cbn [traverse_limited children].
  destruct (Nat.eqb inner 0 && _); [now left|].
  destruct (visit wx wy _ out) as [out1|e]; [|right; eauto].
  cbn [depth children] in Hd. apply PeanoNat.lt_S_n in Hd.
  revert out1. induction cs as [|c cs IHcs]; intros out1.
  - cbn in Hd. lia.
  - change (list_max (map depth (c :: cs)))
      with (Nat.max (depth c) (list_max (map depth cs))) in Hd.
    destruct (Nat.max_spec (depth c) (list_max (map depth cs))) as [[_ Hm]|[_ Hm]];
      rewrite Hm in Hd.
    + destruct (traverse_limited builtins_count inner wx wy c out1) as [[out2|e]|];
        [now apply IHcs | right; eauto | now left].
    + destruct (IH c out1 Hd) as [-> | [e ->]]; [now left | right; eauto].
Qed.

End Walk.

(** ** Boxes in order *)

(** A box of four coordinates whose floor centre is below 2^53 in
    magnitude is in order. *)
Lemma box_ok_small n x1 y1 x2 y2 :
  visible_bbox n = Some [x1; y1; x2; y2] ->
  Z.abs ((x1 + x2) / 2) < 2 ^ 53 ->
  Z.abs ((y1 + y2) / 2) < 2 ^ 53 ->
  box_ok n = true.
Proof.
  intros Hb Hx Hy. unfold box_ok. rewrite Hb.
  destruct (float_of_int_exact _ Hx) as (fx & -> & _).
  destruct (float_of_int_exact _ Hy) as (fy & -> & _).
  reflexivity.
Qed.

(** ** The window origin *)

Lemma window_origin_cases t :
  (exists wx wy, window_origin t = Ok (wx, wy)) \/
  (exists e, malformed_origin t e).
Proof.
  unfold window_origin.
  destruct (absolute_position t) as [pos|] eqn:Hpos;
    [|right; eexists; now apply origin_missing].
  cbn [dict_getitem bind str_split].
  destruct (split_scan "," 0 pos) as [|a [|b rest]] eqn:Hsplit.
  - now apply split_scan_nonempty in Hsplit.
  - right. cbn [getitem nth_error bind].
    destruct (float a) as [wx|e] eqn:Ha.
    + eexists. eapply origin_single_component; eauto.
    + pose proof (float_raises _ _ Ha) as ->.
      eexists. eapply origin_first_not_a_number; eauto.
  - cbn [getitem nth_error bind].
    destruct (float a) as [wx|e] eqn:Ha.
    + cbn [bind]. destruct (float b) as [wy|e] eqn:Hb.
      * left. exists wx, wy. reflexivity.
      * pose proof (float_raises _ _ Hb) as ->.
        right. eexists. eapply origin_second_not_a_number; eauto.
    + pose proof (float_raises _ _ Ha) as ->.
      right. eexists. eapply origin_first_not_a_number; eauto.
Qed.

Lemma malformed_origin_window t e :
  malformed_origin t e -> window_origin t = Raise e.
Proof.
  unfold window_origin.
  intros [Hpos | pos a rest Hpos Hs Ha | pos a wx Hpos Hs Ha
         | pos a b rest wx Hpos Hs Ha Hb];
    rewrite Hpos; cbn [dict_getitem bind str_split]; [reflexivity| | |];
    rewrite Hs; cbn [getitem nth_error bind]; rewrite Ha; cbn [bind];
    [reflexivity | reflexivity | now rewrite Hb].
Qed.

(** ** The whole extraction *)

Lemma extract_elements_eq t :
  extract_elements t =
  o <- window_origin t ;;
  out <- traverse (fst o) (snd o) t {| buttons := []; text_areas := [] |} ;;
  Ok (buttons out, text_areas out).
Proof.
  unfold extract_elements, window_origin.
  rewrite !bind_assoc. apply bind_ext. intros pos.
  rewrite !bind_assoc. apply bind_ext. intros parts.
  rewrite !bind_assoc. apply bind_ext. intros p0.
  rewrite !bind_assoc. apply bind_ext. intros wx.
  rewrite !bind_assoc. apply bind_ext. intros p1.
  rewrite !bind_assoc. apply bind_ext. intros wy.
  reflexivity.
Qed.

Lemma get_ui_elements_eq t : get_ui_elements t = extract_elements t.
Proof.
  unfold get_ui_elements. destruct (extract_elements t) as [[bs ts]|e]; reflexivity.
Qed.

Lemma extract_elements_ok t bs ts :
  extract_elements t = Ok (bs, ts) ->
  exists wx wy,
    window_origin t = Ok (wx, wy) /\
    Forall2 (emits wx wy) (filter clickable (preorder t)) bs /\
    Forall2 (emits wx wy) (filter text_input (preorder t)) ts.
Proof.
  rewrite extract_elements_eq. intros H.
  ok_inv H o Ho. destruct o as [wx wy]. cbn [fst snd] in H.
  ok_inv H out Ht. injection H as <- <-.
  rewrite traverse_preorder in Ht.
  apply visit_all_ok in Ht as (bs & ts & Hb & Htx & Fb & Ft).
  cbn [buttons text_areas app] in Hb, Htx.
  exists wx, wy. rewrite Hb, Htx. auto.
Qed.

Lemma extract_elements_returns t wx wy :
  window_origin t = Ok (wx, wy) ->
  boxes_ok t = true ->
  exists bs ts, extract_elements t = Ok (bs, ts).
Proof.
  intros Ho Hall. rewrite extract_elements_eq, Ho. cbn [bind fst snd].
  rewrite traverse_preorder.
  pose proof (visit_all_succeeds wx wy (preorder t) Hall
                {| buttons := []; text_areas := [] |}) as H.
  apply is_ok_true in H as [out ->]. cbn [bind]. eauto.
Qed.

Lemma depth_positive n : (0 < depth n)%nat.
Proof. destruct n. cbn [depth]. lia. Qed.

Lemma extract_elements_limited_enough builtins_count frames t :
  (depth t < frames)%nat ->
  extract_elements_limited builtins_count frames t = Done (extract_elements t).
Proof.
  intros Hd. unfold extract_elements_limited. rewrite extract_elements_eq.
  destruct (absolute_position t) as [pos|] eqn:Hpos.
  - destruct frames as [|frames]; [lia|]. cbn [Nat.eqb]. rewrite andb_false_r.
    destruct (window_origin t) as [[wx wy]|e]; [|reflexivity].
    cbn [bind fst snd]. rewrite (traverse_limited_enough _ _ _ _ _ _ Hd).
    destruct (traverse wx wy t _); reflexivity.
  - unfold window_origin. rewrite Hpos. reflexivity.
Qed.

Lemma extract_elements_limited_done builtins_count frames t r :
  extract_elements_limited builtins_count frames t = Done r ->
  r = extract_elements t.
Proof.
  unfold extract_elements_limited. rewrite extract_elements_eq.
  destruct (absolute_position t) as [pos|] eqn:Hpos.
  - destruct (builtins_count && Nat.eqb frames 0); [discriminate|].
    destruct (window_origin t) as [[wx wy]|e]; [|now intros [= <-]].
    cbn [bind fst snd].
    destruct (traverse_limited builtins_count frames wx wy t _)
      as [[out|e]|] eqn:Ht; [| |discriminate].
    + rewrite <- (traverse_limited_done _ _ _ _ _ _ _ Ht). now intros [= <-].
    + rewrite <- (traverse_limited_done _ _ _ _ _ _ _ Ht). now intros [= <-].
  - unfold window_origin. rewrite Hpos. now intros [= <-].
Qed.

Lemma extract_elements_limited_short builtins_count frames t :
  (frames < depth t)%nat ->
  extract_elements_limited builtins_count frames t = RecursionError \/
  exists e, extract_elements_limited builtins_count frames t = Done (Raise e).
Proof.
  intros Hd. unfold extract_elements_limited.
  destruct (absolute_position t) as [pos|]; [|right; eauto].
  destruct (builtins_count && Nat.eqb frames 0); [now left|].
  destruct (window_origin t) as [[wx wy]|e]; [|right; eauto].
  destruct (traverse_limited_short wx wy builtins_count frames t
              {| buttons := []; text_areas := [] |} Hd) as [-> | [e ->]];
    [now left | right; eauto].
Qed.

(** A window nested [k] times needs [k + 1] levels. *)
Lemma deep_tree_depth k : depth (deep_tree k) = S k.
Proof.
  induction k as [|k IH]; [reflexivity|].
  cbn [deep_tree window depth children map list_max fold_right].
  rewrite IH. lia.
Qed.

(** Whatever the limit, a finite tree is deeper: the window nested as
    many times as the limit allows calls ends in RecursionError. *)
Lemma traverse_limited_deep_tree builtins_count wx wy k :
  forall out,
    traverse_limited builtins_count k wx wy (deep_tree k) out = RecursionError.
Proof.
  induction k as [|k IH]; intros out; [reflexivity|].
  cbn [deep_tree traverse_limited]. unfold window.
  unfold qualifying, visit, clickable, text_input.
  cbn [role visible_bbox role_in role_is has_key andb orb children].
  rewrite orb_false_r.
  destruct k as [|k]; cbn [Nat.eqb andb].
  - destruct builtins_count; reflexivity.
  - now rewrite IH.
Qed.

Lemma extract_elements_limited_deep_tree builtins_count k :
  extract_elements_limited builtins_count k (deep_tree k) = RecursionError.
Proof.
  unfold extract_elements_limited.
  assert (Hpos : absolute_position (deep_tree k) = Some "0,0")
    by (destruct k; reflexivity).
  assert (Ho : window_origin (deep_tree k) = Ok (f0, f0)).
  { unfold window_origin. rewrite Hpos. vm_compute. reflexivity. }
  rewrite Hpos, Ho, traverse_limited_deep_tree.
  destruct (builtins_count && Nat.eqb k 0); reflexivity.
Qed.

(** ** Sample runs *)

Example half_pixel_run :
  extract_elements half_pixel_tree = Ok ([plain_element f105_5 f205], []).
Proof. vm_compute. reflexivity. Qed.

(** The container example of the specification: a group of unknown
    role around a button at (0, 0, 2, 2), origin (0, 0). *)
Example nested_run :
  extract_elements nested_tree = Ok ([plain_element f1 f1], []) /\
  Py.eqb (PyFloat f1) (PyInt 1) = true.
Proof. split; vm_compute; reflexivity. Qed.

Example example_origin : window_origin example_tree = Ok (f100, f200).
Proof. vm_compute. reflexivity. Qed.

(** A box of three coordinates on a button stops the extraction. *)
Example short_box_run :
  extract_elements (window "0,0" [leaf "AXButton" [0; 0; 2]]) = Raise ValueError.
Proof. vm_compute. reflexivity. Qed.

(** [inf] and [nan] are origins [float] accepts. *)
Example nan_origin_run :
  extract_elements (window "nan,inf" [leaf "AXButton" [0; 0; 2; 2]])
  = Ok ([plain_element S754_nan (S754_infinity false)], []).
Proof. vm_compute. reflexivity. Qed.

(** One level is not enough for a window with children. *)
Example limit_too_small :
  extract_elements_limited false 1 example_tree = RecursionError.
Proof. vm_compute. reflexivity. Qed.

Example type_text_two_lines :
  type_text (String "a" (line_break ++ String "b" EmptyString)%string) false
  = ([Typewrite (String "a" EmptyString); Press "enter";
      Typewrite (String "b" EmptyString)], "Success").
Proof. vm_compute. reflexivity. Qed.

(** ** Centre coordinates *)

(** C1 does not hold as stated: in a window whose origin is
    (100.5, 200) the button with box (0, 0, 10, 10) is reported at
    x = 105.5, a float that is not an integer. *)
Lemma center_not_integer :
  exists e,
    extract_elements half_pixel_tree = Ok ([e], []) /\
    fst (center e) = PyFloat f105_5 /\
    is_int (fst (center e)) = false /\
    integral (fst (center e)) = false.
Proof.
  exists (plain_element f105_5 f205).
  repeat split; vm_compute; reflexivity.
Qed.

(** C1, as the code has it: every emitted centre coordinate is a
    float and is not truncated; it is the floor centre of the node's
    box, converted to float, plus the float window origin. *)
Theorem centers_are_floats t bs ts :
  extract_elements t = Ok (bs, ts) ->
  exists wx wy,
    window_origin t = Ok (wx, wy) /\
    Forall (float_center t wx wy) (bs ++ ts).
Proof.
  intros H. apply extract_elements_ok in H as (wx & wy & Ho & Fb & Ft).
  exists wx, wy. split; [exact Ho|].
  assert (Hone : forall p es,
             Forall2 (emits wx wy) (filter p (preorder t)) es ->
             Forall (float_center t wx wy) es).
  { intros p es F. apply Forall_forall. intros e He.
    destruct (Forall2_In_right _ _ _ _ F He) as (n & Hn & Hin).
    apply filter_In in Hin as [Hin _]. apply subnode_preorder in Hin.
    apply emits_inv in Hn as (x1 & y1 & x2 & y2 & fx & fy & Hb & Hx & Hy & ->).
    repeat split. exists n, x1, y1, x2, y2, fx, fy. auto. }
  apply Forall_app. split; [apply (Hone clickable bs) | apply (Hone text_input ts)];
    assumption.
Qed.

Lemma centers_are_floats_witness :
  exists wx wy,
    window_origin half_pixel_tree = Ok (wx, wy) /\
    Forall (float_center half_pixel_tree wx wy) ([plain_element f105_5 f205] ++ []).
Proof.
  apply (centers_are_floats half_pixel_tree [plain_element f105_5 f205] []).
  vm_compute. reflexivity.
Defined.

(** C2: a node with role AXButton and a box (x1, y1, x2, y2) has
    exactly one element in the clickable list, at the node's position
    among the clickable nodes in pre-order, and its centre is
    ((x1 + x2) // 2 + window_x, (y1 + y2) // 2 + window_y): floor
    division on the box first, then the translation by the origin. *)
Theorem button_center t bs ts wx wy :
  extract_elements t = Ok (bs, ts) ->
  window_origin t = Ok (wx, wy) ->
  List.length bs = List.length (filter clickable (preorder t)) /\
  forall n x1 y1 x2 y2,
    subnode n t ->
    role n = Some "AXButton" ->
    visible_bbox n = Some [x1; y1; x2; y2] ->
    exists cx cy,
      Py.add (PyInt ((x1 + x2) / 2)) (PyFloat wx) = Ok cx /\
      Py.add (PyInt ((y1 + y2) / 2)) (PyFloat wy) = Ok cy /\
      (exists k, nth_error (filter clickable (preorder t)) k = Some n) /\
      (forall k,
          nth_error (filter clickable (preorder t)) k = Some n ->
          nth_error bs k
          = Some {| center := (cx, cy);
                    el_description := description n;
                    el_role_description := role_description n |}).
Proof.
  intros H Ho. apply extract_elements_ok in H as (wx' & wy' & Ho' & Fb & _).
  rewrite Ho in Ho'. injection Ho' as <- <-.
  split; [symmetry; exact (Forall2_length Fb)|].
  intros n x1 y1 x2 y2 Hsub Hrole Hbox.
  assert (Hc : clickable n = true).
  { unfold clickable. rewrite Hrole, Hbox. reflexivity. }
  assert (Hin : In n (filter clickable (preorder t))).
  { apply filter_In. split; [now apply subnode_preorder | exact Hc]. }
  destruct (Forall2_In_left _ _ _ _ Fb Hin) as (e & He & _).
  destruct (emits_center _ _ _ _ _ _ _ _ He Hbox) as (cx & cy & Hx & Hy & ->).
  exists cx, cy. repeat split; try assumption.
  - now apply In_nth_error.
  - intros k Hk.
    destruct (Forall2_nth_error_left _ _ _ Fb k n Hk) as (e' & Hk' & He').
    unfold emits in He, He'. rewrite He in He'. injection He' as <-. exact Hk'.
Qed.

Lemma button_center_witness :
  List.length [plain_element f105 f205]
  = List.length (filter clickable (preorder example_tree)).
Proof.
  apply (button_center example_tree
           [plain_element f105 f205] [plain_element f130 f230] f100 f200);
    vm_compute; reflexivity.
Defined.

(** C3 does not hold as stated: the text area of the example, box
    (20, 20, 40, 40) under origin (100, 200), is reported at
    (130, 230), and 230 is not 220. *)
Lemma example_text_center_not_220 :
  exists b a,
    extract_elements example_tree = Ok ([b], [a]) /\
    center a = (PyFloat f130, PyFloat f230) /\
    Py.eqb (snd (center a)) (PyInt 230) = true /\
    Py.eqb (snd (center a)) (PyInt 220) = false.
Proof.
  exists (plain_element f105 f205), (plain_element f130 f230).
  repeat split; vm_compute; reflexivity.
Qed.

(** C3, as the code has it: on the tree with origin (100, 200), a
    button at (0, 0, 10, 10) and a text area at (20, 20, 40, 40), the
    clickable list has the single centre (105, 205) and the text-input
    list the single centre (130, 230); the coordinates are floats that
    equal these integers. *)
Theorem example_tree_located :
  extract_elements example_tree
  = Ok ([plain_element f105 f205], [plain_element f130 f230]) /\
  get_ui_elements example_tree
  = Ok ([plain_element f105 f205], [plain_element f130 f230]) /\
  Py.eqb (PyFloat f105) (PyInt 105) = true /\
  Py.eqb (PyFloat f205) (PyInt 205) = true /\
  Py.eqb (PyFloat f130) (PyInt 130) = true /\
  Py.eqb (PyFloat f230) (PyInt 230) = true.
Proof. repeat split; vm_compute; reflexivity. Qed.

(** ** One entry per qualifying node *)

(** C4: on a tree whose origin parses and whose emitting nodes have
    boxes in order, the extraction returns two lists; no node goes to
    both; together they hold one entry for each node with a matching
    role and a box; and the children of a node are walked whatever the
    node itself did, so a qualifying node at any depth has its entry. *)
Theorem one_entry_per_qualifying_node t wx wy :
  window_origin t = Ok (wx, wy) ->
  boxes_ok t = true ->
  exists bs ts,
    extract_elements t = Ok (bs, ts) /\
    (forall n, clickable n && text_input n = false) /\
    List.length bs = List.length (filter clickable (preorder t)) /\
    List.length ts = List.length (filter text_input (preorder t)) /\
    List.length (bs ++ ts) = List.length (filter qualifying (preorder t)) /\
    (forall n out out1,
        visit wx wy n out = Ok out1 ->
        traverse wx wy n out = traverse_children wx wy (children n) out1) /\
    (forall d, subnode d t -> clickable d = true ->
               exists e, emits wx wy d e /\ In e bs) /\
    (forall d, subnode d t -> text_input d = true ->
               exists e, emits wx wy d e /\ In e ts) /\
    (forall e, In e bs ->
               exists d, subnode d t /\ clickable d = true /\ emits wx wy d e) /\
    (forall e, In e ts ->
               exists d, subnode d t /\ text_input d = true /\ emits wx wy d e).
Proof.
  intros Ho Hboxes.
  destruct (extract_elements_returns t wx wy Ho Hboxes) as (bs & ts & H).
  exists bs, ts. split; [exact H|].
  apply extract_elements_ok in H as (wx' & wy' & Ho' & Fb & Ft).
  rewrite Ho in Ho'. injection Ho' as <- <-.
  assert (Lb := Forall2_length Fb). assert (Lt := Forall2_length Ft).
  split.
  { intros n. destruct (clickable n) eqn:Ec; [|reflexivity].
    now rewrite (clickable_not_text_input n Ec). }
  split; [now symmetry|]. split; [now symmetry|].
  split. { rewrite length_app, filter_qualifying_length. lia. }
  split. { intros n out out1 Hv. now rewrite traverse_unfold, Hv. }
  repeat split.
  - intros d Hd Hc. apply (Forall2_In_left _ _ _ _ Fb).
    apply filter_In. split; [now apply subnode_preorder | exact Hc].
  - intros d Hd Hc. apply (Forall2_In_left _ _ _ _ Ft).
    apply filter_In. split; [now apply subnode_preorder | exact Hc].
  - intros e He. destruct (Forall2_In_right _ _ _ _ Fb He) as (d & Hd & Hin).
    apply filter_In in Hin as [Hin Hc]. apply subnode_preorder in Hin. eauto.
  - intros e He. destruct (Forall2_In_right _ _ _ _ Ft He) as (d & Hd & Hin).
    apply filter_In in Hin as [Hin Hc]. apply subnode_preorder in Hin. eauto.
Qed.

Lemma one_entry_per_qualifying_node_witness :
  exists bs ts,
    extract_elements nested_tree = Ok (bs, ts) /\
    List.length (bs ++ ts) = List.length (filter qualifying (preorder nested_tree)).
Proof.
  destruct (one_entry_per_qualifying_node nested_tree f0 f0)
    as (bs & ts & H & _ & _ & _ & Hlen & _);
    [vm_compute; reflexivity | vm_compute; reflexivity |].
  exists bs, ts. split; assumption.
Defined.

(** ** Order of the outputs *)

(** C5: the walk performs the node-local steps in pre-order (parent
    first, then the children in their order), so each output list
    pairs off, position by position, with the emitting nodes in
    pre-order; the result is a function of the tree. *)
Theorem outputs_in_preorder t bs ts :
  extract_elements t = Ok (bs, ts) ->
  (forall wx wy n out,
      traverse wx wy n out = visit_all wx wy (preorder n) out) /\
  (forall n, preorder n = n :: flat_map preorder (children n)) /\
  (exists wx wy,
      window_origin t = Ok (wx, wy) /\
      Forall2 (emits wx wy) (filter clickable (preorder t)) bs /\
      Forall2 (emits wx wy) (filter text_input (preorder t)) ts) /\
  (forall bs' ts', extract_elements t = Ok (bs', ts') -> bs' = bs /\ ts' = ts).
Proof.
  intros H. split; [intros; apply traverse_preorder|].
  split; [exact preorder_cons|]. split.
  - apply extract_elements_ok in H as (wx & wy & Ho & Fb & Ft). eauto.
  - intros bs' ts' H'. rewrite H in H'. now injection H' as <- <-.
Qed.

Lemma outputs_in_preorder_witness :
  exists wx wy,
    window_origin example_tree = Ok (wx, wy) /\
    Forall2 (emits wx wy) (filter clickable (preorder example_tree))
            [plain_element f105 f205] /\
    Forall2 (emits wx wy) (filter text_input (preorder example_tree))
            [plain_element f130 f230].
Proof.
  apply (outputs_in_preorder example_tree
           [plain_element f105 f205] [plain_element f130 f230]).
  vm_compute. reflexivity.
Defined.

(** ** A malformed window origin *)

(** C6: when the window origin is missing, has a first or second
    component that is not a number, or has a single component, the
    extraction raises (a KeyError, a ValueError or an IndexError); no
    origin is made up and no lists are returned. *)
Theorem malformed_origin_raises t e :
  malformed_origin t e ->
  extract_elements t = Raise e /\
  get_ui_elements t = Raise e /\
  invalid_input e = true.
Proof.
  intros H. assert (He : extract_elements t = Raise e).
  { rewrite extract_elements_eq, (malformed_origin_window t e H). reflexivity. }
  split; [exact He|]. split; [now rewrite get_ui_elements_eq|].
  destruct H; reflexivity.
Qed.

Lemma malformed_origin_raises_witness :
  extract_elements (window "12" [leaf "AXButton" [0; 0; 10; 10]]) = Raise IndexError.
Proof.
  apply (malformed_origin_raises (window "12" [leaf "AXButton" [0; 0; 10; 10]])).
  apply origin_single_component
    with (pos := "12") (a := "12")
         (window_x := S754_finite false 6755399441055744 (-49));
    vm_compute; reflexivity.
Defined.

(** ** Unrecognized roles *)

(** C7: a node whose role is none of the three known names, or that
    has no role, raises nothing and emits nothing, and its children are
    still visited: the walk from it is the sequence of node-local steps
    over the pre-order of its children, so every emitting node below it
    surfaces in the lists, and the lists grow by exactly the emitting
    nodes below it. *)
Theorem unrecognized_role_skipped wx wy n out :
  unrecognized (role n) = true ->
  visit wx wy n out = Ok out /\
  traverse wx wy n out = visit_all wx wy (flat_map preorder (children n)) out /\
  forall out',
    traverse wx wy n out = Ok out' ->
    (forall d, subnode d n -> clickable d = true ->
               exists e, emits wx wy d e /\ In e (buttons out')) /\
    (forall d, subnode d n -> text_input d = true ->
               exists e, emits wx wy d e /\ In e (text_areas out')) /\
    List.length (buttons out')
    = (List.length (buttons out)
       + List.length (filter clickable (flat_map preorder (children n))))%nat /\
    List.length (text_areas out')
    = (List.length (text_areas out)
       + List.length (filter text_input (flat_map preorder (children n))))%nat.
Proof.
  intros H. apply unrecognized_not_qualifying in H as [Hc Ht].
  now apply silent_node.
Qed.

Lemma unrecognized_role_skipped_witness :
  exists e,
    emits f0 f0 (leaf "AXButton" [0; 0; 2; 2]) e /\
    In e (buttons {| buttons := [plain_element f1 f1]; text_areas := [] |}).
Proof.
  destruct (unrecognized_role_skipped f0 f0 sample_group
              {| buttons := []; text_areas := [] |}) as (_ & _ & H);
    [reflexivity|].
  destruct (H {| buttons := [plain_element f1 f1]; text_areas := [] |})
    as (Hb & _); [vm_compute; reflexivity|].
  apply Hb; [|reflexivity].
  apply subnode_preorder. cbn. auto.
Defined.

(** ** The typing tool *)

(** C8: the text is cut at every backslash-n; each piece is typed in
    order, enter is pressed after every piece but the last, and after
    the last one exactly when the flag is set. *)
Theorem type_text_keystrokes text press_enter_after :
  exists segments,
    str_split line_break text = Ok segments /\
    String.concat line_break segments = text /\
    Forall (fun segment => occurs line_break segment = false) segments /\
    type_text text press_enter_after
    = (keystrokes segments press_enter_after, "Success").
Proof.
  exists (split_scan line_break 0 text).
  assert (Hsep : line_break <> EmptyString) by discriminate.
  split; [reflexivity|].
  split; [now apply split_scan_concat|].
  split; [now apply split_scan_free|].
  unfold type_text. cbn [str_split line_break].
  fold line_break.
  rewrite <- (Z.add_0_l (Z.of_nat _)), type_lines_keystrokes. reflexivity.
Qed.

(** ** Termination *)

(** C9 does not hold as stated: under the interpreter's default limit
    of 1000 nested calls the extraction of a window nested 1000 times,
    a finite tree of depth 1001 without a cycle, ends in RecursionError
    and returns nothing, on either way of counting built-in calls. *)
Lemma deep_tree_hits_recursion_limit :
  depth (deep_tree 1000) = 1001%nat /\
  extract_elements_limited true 1000 (deep_tree 1000) = RecursionError /\
  extract_elements_limited false 1000 (deep_tree 1000) = RecursionError.
Proof. repeat split; vm_compute; reflexivity. Qed.

(** C9, as the code has it: the walk always ends; it runs to
    completion, with the result of [extract_elements], on every tree
    whose depth is below the number of nested calls the interpreter
    still allows; on a tree deeper than that number it ends in an
    exception, RecursionError unless another comes first, and returns
    no lists; and whenever it completes it is with the result of
    [extract_elements]. *)
Theorem traversal_within_recursion_limit builtins_count frames t :
  ((depth t < frames)%nat ->
   extract_elements_limited builtins_count frames t
   = Done (extract_elements t)) /\
  ((frames < depth t)%nat ->
   extract_elements_limited builtins_count frames t = RecursionError \/
   exists e, extract_elements_limited builtins_count frames t = Done (Raise e)) /\
  (forall r,
      extract_elements_limited builtins_count frames t = Done r ->
      r = extract_elements t).
Proof.
  split; [apply extract_elements_limited_enough|].
  split; [apply extract_elements_limited_short|].
  intros r. apply extract_elements_limited_done.
Qed.

Lemma traversal_within_recursion_limit_witness :
  extract_elements_limited true 3 example_tree
  = Done (extract_elements example_tree).
Proof.
  apply (traversal_within_recursion_limit true 3 example_tree).
  vm_compute. lia.
Defined.

(** ** More than two origin components *)

(** C10: with an origin of more than two comma-separated components
    the extraction does not fail on their account and takes the first
    two as the origin: it is the walk under (float of the first, float
    of the second), every element is that of its node under this
    origin, and the result is that of the same tree with the origin cut
    after the second component. *)
Theorem extra_origin_components_ignored t a b rest :
  absolute_position t = Some (a ++ "," ++ b ++ "," ++ rest)%string ->
  occurs "," a = false ->
  occurs "," b = false ->
  window_origin t = (wx <- float a ;; wy <- float b ;; Ok (wx, wy)) /\
  extract_elements t = extract_elements (with_origin t (a ++ "," ++ b)%string) /\
  extract_elements t =
  (window_x <- float a ;;
   window_y <- float b ;;
   out <- visit_all window_x window_y (preorder t)
            {| buttons := []; text_areas := [] |} ;;
   Ok (buttons out, text_areas out)) /\
  (forall bs ts,
      extract_elements t = Ok (bs, ts) ->
      exists wx wy,
        float a = Ok wx /\ float b = Ok wy /\
        Forall2 (emits wx wy) (filter clickable (preorder t)) bs /\
        Forall2 (emits wx wy) (filter text_input (preorder t)) ts) /\
  (forall wx wy,
      float a = Ok wx -> float b = Ok wy -> boxes_ok t = true ->
      exists bs ts, extract_elements t = Ok (bs, ts)).
Proof.
  intros Hpos Ha Hb.
  assert (Hlong : window_origin t = (wx <- float a ;; wy <- float b ;; Ok (wx, wy))).
  { unfold window_origin. rewrite Hpos.
    cbn [dict_getitem bind str_split append].
    rewrite (split_scan_cut _ _ _ Ha), (split_scan_cut _ _ _ Hb).
    reflexivity. }
  assert (Hshort : window_origin (with_origin t (a ++ "," ++ b)%string)
                   = (wx <- float a ;; wy <- float b ;; Ok (wx, wy))).
  { unfold window_origin, with_origin.
    cbn [absolute_position dict_getitem bind str_split append].
    rewrite (split_scan_cut _ _ _ Ha), (split_scan_whole _ _ Hb).
    reflexivity. }
  split; [exact Hlong|]. split.
  { rewrite !extract_elements_eq, Hlong, Hshort.
    apply bind_ext. intros o. now rewrite traverse_with_origin. }
  split.
  { rewrite extract_elements_eq, Hlong.
    destruct (float a) as [wx|e]; [|reflexivity].
    destruct (float b) as [wy|e]; [|reflexivity].
    cbn [bind fst snd]. now rewrite traverse_preorder. }
  split.
  - intros bs ts H. apply extract_elements_ok in H as (wx & wy & Ho & Fb & Ft).
    rewrite Hlong in Ho. exists wx, wy.
    destruct (float a) as [wx'|e]; [|discriminate Ho].
    destruct (float b) as [wy'|e]; [|discriminate Ho].
    injection Ho as <- <-. auto.
  - intros wx wy Hx Hy Hboxes. apply (extract_elements_returns t wx wy); [|exact Hboxes].
    rewrite Hlong, Hx, Hy. reflexivity.
Qed.

Lemma extra_origin_components_ignored_witness :
  exists wx wy,
    float "100" = Ok wx /\ float "200" = Ok wy /\
    Forall2 (emits wx wy)
      (filter clickable
         (preorder (window "100,200,300" [leaf "AXButton" [0; 0; 10; 10]])))
      [plain_element f105 f205] /\
    Forall2 (emits wx wy)
      (filter text_input
         (preorder (window "100,200,300" [leaf "AXButton" [0; 0; 10; 10]])))
      [].
Proof.
  destruct (extra_origin_components_ignored
              (window "100,200,300" [leaf "AXButton" [0; 0; 10; 10]])
              "100" "200" "300") as (_ & _ & _ & H & _);
    try reflexivity.
  apply H. vm_compute. reflexivity.
Defined.

(** * Further properties of the locator *)

(** ** The centre of a box *)

(** X1: [get_center_point] returns exactly on boxes of four
    coordinates; any other length is a ValueError. *)
Theorem get_center_point_arity bbox :
  (List.length bbox = 4%nat <-> exists c, get_center_point bbox = Ok c) /\
  (List.length bbox <> 4%nat <-> get_center_point bbox = Raise ValueError).
Proof.
  destruct bbox as [|x1 [|y1 [|x2 [|y2 [|extra bbox]]]]];
    cbn [get_center_point List.length]; repeat split;
    try discriminate; try lia; eauto;
    try (intros [c H]; discriminate H); try (intros H; now contradiction H).
Qed.

(** X2: for a box given by its low and high corners the centre lies
    inside the box, and it is the midpoint rounded down: twice the
    centre is the sum of the two coordinates or one less. *)
Theorem center_within_box x1 y1 x2 y2 :
  x1 <= x2 ->
  y1 <= y2 ->
  exists cx cy,
    get_center_point [x1; y1; x2; y2] = Ok (cx, cy) /\
    x1 <= cx <= x2 /\ y1 <= cy <= y2 /\
    2 * cx <= x1 + x2 <= 2 * cx + 1 /\
    2 * cy <= y1 + y2 <= 2 * cy + 1.
Proof.
  intros Hx Hy. exists ((x1 + x2) / 2), ((y1 + y2) / 2).
  split; [reflexivity|].
  pose proof (Z.div_mod (x1 + x2) 2 ltac:(lia)) as Ex.
  pose proof (Z.mod_pos_bound (x1 + x2) 2 ltac:(lia)) as Bx.
  pose proof (Z.div_mod (y1 + y2) 2 ltac:(lia)) as Ey.
  pose proof (Z.mod_pos_bound (y1 + y2) 2 ltac:(lia)) as By.
  lia.
Qed.

Lemma center_within_box_witness :
  exists cx cy,
    get_center_point [3; -7; 10; -2] = Ok (cx, cy) /\
    3 <= cx <= 10 /\ -7 <= cy <= -2 /\
    2 * cx <= 3 + 10 <= 2 * cx + 1 /\
    2 * cy <= -7 + -2 <= 2 * cy + 1.
Proof. apply (center_within_box 3 (-7) 10 (-2)); lia. Defined.

(** X3: moving a box by (dx, dy) moves its centre by (dx, dy), and
    the centre does not depend on which corner is given first. *)
Theorem center_translation x1 y1 x2 y2 dx dy :
  get_center_point [x1 + dx; y1 + dy; x2 + dx; y2 + dy]
  = (c <- get_center_point [x1; y1; x2; y2] ;; Ok (fst c + dx, snd c + dy)) /\
  get_center_point [x2; y2; x1; y1] = get_center_point [x1; y1; x2; y2].
Proof.
  cbn [get_center_point bind fst snd]. split.
  - do 2 f_equal.
    + replace (x1 + dx + (x2 + dx)) with (x1 + x2 + dx * 2) by lia.
      apply Z.div_add. lia.
    + replace (y1 + dy + (y2 + dy)) with (y1 + y2 + dy * 2) by lia.
      apply Z.div_add. lia.
  - now rewrite (Z.add_comm x2 x1), (Z.add_comm y2 y1).
Qed.

(** ** When the extraction returns *)

Lemma traverse_children_flat wx wy cs out :
  traverse_children wx wy cs out = visit_all wx wy (flat_map preorder cs) out.
Proof.
  apply traverse_children_preorder. apply Forall_forall.
  intros c _. apply traverse_preorder.
Qed.

Lemma boxes_ok_of_paired wx wy ns bs ts :
  Forall2 (emits wx wy) (filter clickable ns) bs ->
  Forall2 (emits wx wy) (filter text_input ns) ts ->
  forallb (fun n => implb (qualifying n) (box_ok n)) ns = true.
Proof.
  intros Fb Ft. apply forallb_forall. intros n Hn.
  unfold qualifying. destruct (clickable n) eqn:Ec; [|destruct (text_input n) eqn:Et];
    cbn [orb implb]; [| |reflexivity].
  - apply (box_ok_emits wx wy).
    destruct (Forall2_In_left _ _ _ n Fb) as (e & He & _); [|eauto].
    apply filter_In. auto.
  - apply (box_ok_emits wx wy).
    destruct (Forall2_In_left _ _ _ n Ft) as (e & He & _); [|eauto].
    apply filter_In. auto.
Qed.

(** Without a recursion limit the extraction returns its two lists
    exactly when the window origin parses and every node with a
    matching role and a box has a box in order. *)
Lemma extract_elements_returns_iff t :
  (exists bs ts, extract_elements t = Ok (bs, ts)) <->
  (exists wx wy, window_origin t = Ok (wx, wy)) /\ boxes_ok t = true.
Proof.
  split.
  - intros (bs & ts & H).
    apply extract_elements_ok in H as (wx & wy & Ho & Fb & Ft).
    split; [eauto|]. exact (boxes_ok_of_paired wx wy _ _ _ Fb Ft).
  - intros [(wx & wy & Ho) Hb]. exact (extract_elements_returns t wx wy Ho Hb).
Qed.

(** X4: under a recursion limit that leaves a level to spare above
    the depth of the tree, the extraction returns its two lists exactly
    when the window origin parses and every node with a matching role
    and a box has a box in order (four coordinates, a centre that
    converts to float); under a limit below the depth of the tree it
    never returns lists. *)
Theorem extraction_returns_within_limit builtins_count frames t :
  (depth t < frames)%nat ->
  ((exists bs ts,
       extract_elements_limited builtins_count frames t = Done (Ok (bs, ts))) <->
   (exists wx wy, window_origin t = Ok (wx, wy)) /\ boxes_ok t = true) /\
  (forall fewer bs ts,
      (fewer < depth t)%nat ->
      extract_elements_limited builtins_count fewer t <> Done (Ok (bs, ts))).
Proof.
  intros Hd. split.
  - rewrite (extract_elements_limited_enough _ _ _ Hd), <- extract_elements_returns_iff.
    split; intros (bs & ts & H); exists bs, ts; [now injection H | now rewrite H].
  - intros fewer bs ts Hfewer H.
    destruct (extract_elements_limited_short builtins_count fewer t Hfewer)
      as [Hr | [e Hr]]; rewrite Hr in H; discriminate H.
Qed.

Lemma extraction_returns_within_limit_witness :
  exists bs ts, extract_elements_limited false 3 example_tree = Done (Ok (bs, ts)).
Proof.
  destruct (extraction_returns_within_limit false 3 example_tree) as [[_ H] _];
    [vm_compute; lia|].
  apply H. split; [exists f100, f200|]; vm_compute; reflexivity.
Defined.

(** The exceptions of a node's element: a box that has not four
    coordinates, or a centre too large for a float. *)
Lemma element_of_raises wx wy n e :
  element_of wx wy n = Raise e ->
  (visible_bbox n = None /\ e = KeyError "visible_bbox") \/
  exists bbox,
    visible_bbox n = Some bbox /\
    ((List.length bbox <> 4%nat /\ e = ValueError) \/
     (List.length bbox = 4%nat /\ e = OverflowError)).
Proof.
  unfold element_of. intros He.
  destruct (visible_bbox n) as [bbox|];
    [|left; split; [reflexivity | now injection He as <-]].
  right. exists bbox. split; [reflexivity|]. cbn [dict_getitem bind] in He.
  destruct bbox as [|x1 [|y1 [|x2 [|y2 [|extra bbox]]]]];
    cbn [get_center_point bind List.length] in He |- *;
    try (injection He as <-; left; split; [lia | reflexivity]).
  right. split; [reflexivity|].
  unfold located, add, float_of_int in He. cbn [fst snd] in He.
  destruct (binary_normalize prec emax ((x1 + x2) / 2) 0 false);
    cbn [bind] in He; try (now injection He as <-);
    destruct (binary_normalize prec emax ((y1 + y2) / 2) 0 false);
    cbn [bind] in He; try discriminate He; now injection He as <-.
Qed.

Lemma qualifying_has_box n : qualifying n = true -> visible_bbox n <> None.
Proof.
  unfold qualifying, clickable, text_input. intros Hq Hb. rewrite Hb in Hq.
  cbn [has_key] in Hq. rewrite !andb_false_r in Hq. discriminate Hq.
Qed.

(** X5: the first node in pre-order whose box is not in order decides
    the outcome: the extraction raises that node's exception, a
    ValueError for a box that has not four coordinates and an
    OverflowError for a centre too large for a float, and returns
    nothing of what was collected before. *)
Theorem first_bad_box_raises t wx wy before n after e :
  window_origin t = Ok (wx, wy) ->
  preorder t = before ++ n :: after ->
  forallb (fun m => implb (qualifying m) (box_ok m)) before = true ->
  qualifying n = true ->
  element_of wx wy n = Raise e ->
  extract_elements t = Raise e /\
  exists bbox,
    visible_bbox n = Some bbox /\
    ((List.length bbox <> 4%nat /\ e = ValueError) \/
     (List.length bbox = 4%nat /\ e = OverflowError)).
Proof.
  intros Ho Hpre Hbefore Hq He. split.
  - rewrite extract_elements_eq, Ho. cbn [bind fst snd].
    rewrite traverse_preorder, Hpre, visit_all_app.
    pose proof (visit_all_succeeds wx wy before Hbefore
                  {| buttons := []; text_areas := [] |}) as Hok.
    apply is_ok_true in Hok as [out1 ->]. cbn [bind visit_all].
    rewrite visit_cases. unfold qualifying in Hq.
    destruct (clickable n); [|destruct (text_input n); [|discriminate Hq]];
      rewrite He; reflexivity.
  - destruct (element_of_raises _ _ _ _ He) as [[Hb _]|H]; [|exact H].
    now apply qualifying_has_box in Hq.
Qed.

Lemma first_bad_box_raises_witness :
  extract_elements short_box_tree = Raise ValueError.
Proof.
  apply (first_bad_box_raises short_box_tree f0 f0
           [short_box_tree; leaf "AXButton" [0; 0; 2; 2]]
           (leaf "AXButton" [0; 0; 2]) [] ValueError);
    vm_compute; reflexivity.
Defined.

(** X6: a node without a bounding box emits nothing, whatever its
    role, raises nothing, and its children are still traversed: the
    walk from it is the sequence of node-local steps over the pre-order
    of its children, so every emitting node below it surfaces in the
    lists, and the lists grow by exactly the emitting nodes below it. *)
Theorem no_box_no_element wx wy n out :
  visible_bbox n = None ->
  visit wx wy n out = Ok out /\
  traverse wx wy n out = visit_all wx wy (flat_map preorder (children n)) out /\
  forall out',
    traverse wx wy n out = Ok out' ->
    (forall d, subnode d n -> clickable d = true ->
               exists e, emits wx wy d e /\ In e (buttons out')) /\
    (forall d, subnode d n -> text_input d = true ->
               exists e, emits wx wy d e /\ In e (text_areas out')) /\
    List.length (buttons out')
    = (List.length (buttons out)
       + List.length (filter clickable (flat_map preorder (children n))))%nat /\
    List.length (text_areas out')
    = (List.length (text_areas out)
       + List.length (filter text_input (flat_map preorder (children n))))%nat.
Proof.
  intros Hb. apply silent_node; unfold clickable, text_input; rewrite Hb;
    cbn [has_key]; apply andb_false_r.
Qed.

Lemma no_box_no_element_witness :
  exists e,
    emits f0 f0 (leaf "AXTextArea" [0; 0; 2; 2]) e /\
    In e (text_areas {| buttons := []; text_areas := [plain_element f1 f1] |}).
Proof.
  destruct (no_box_no_element f0 f0 boxless_button
              {| buttons := []; text_areas := [] |}) as (_ & _ & H);
    [reflexivity|].
  destruct (H {| buttons := []; text_areas := [plain_element f1 f1] |})
    as (_ & Ht & _); [vm_compute; reflexivity|].
  apply Ht; [|reflexivity].
  apply subnode_preorder. cbn. auto.
Defined.

(** X7: on a tree whose origin parses and in which no node has both a
    matching role and a box, both lists are empty. *)
Theorem nothing_to_locate t wx wy :
  window_origin t = Ok (wx, wy) ->
  (forall n, subnode n t -> qualifying n = false) ->
  extract_elements t = Ok ([], []).
Proof.
  intros Ho Hnone.
  assert (Hb : boxes_ok t = true).
  { apply forallb_forall. intros n Hn.
    rewrite (Hnone n) by now apply subnode_preorder. reflexivity. }
  destruct (extract_elements_returns t wx wy Ho Hb) as (bs & ts & H).
  rewrite H. apply extract_elements_ok in H as (wx' & wy' & _ & Fb & Ft).
  assert (Hfilter : forall p, (forall n, p n = true -> qualifying n = true) ->
                              filter p (preorder t) = []).
  { intros p Hp. destruct (filter p (preorder t)) as [|n l] eqn:E; [reflexivity|].
    assert (Hin : In n (filter p (preorder t))) by (rewrite E; now left).
    apply filter_In in Hin as [Hin Hpn]. apply subnode_preorder in Hin.
    specialize (Hnone n Hin). rewrite (Hp n Hpn) in Hnone. discriminate. }
  rewrite (Hfilter clickable) in Fb
    by (intros n H1; unfold qualifying; now rewrite H1).
  rewrite (Hfilter text_input) in Ft
    by (intros n H1; unfold qualifying; rewrite H1; apply orb_true_r).
  inversion Fb. inversion Ft. reflexivity.
Qed.

Lemma nothing_to_locate_witness : extract_elements labels_tree = Ok ([], []).
Proof.
  apply (nothing_to_locate labels_tree f0 f0); [vm_compute; reflexivity|].
  intros n Hn. apply subnode_preorder in Hn. cbn in Hn.
  destruct Hn as [<-|[<-|[<-|[]]]]; reflexivity.
Defined.

(** ** The walk only appends *)

Lemma outputs_app_nil_r out : outputs_app out no_outputs = out.
Proof.
  destruct out as [bs ts]. unfold outputs_app, no_outputs. cbn [buttons text_areas].
  now rewrite !app_nil_r.
Qed.

Lemma outputs_app_assoc a b c :
  outputs_app (outputs_app a b) c = outputs_app a (outputs_app b c).
Proof.
  unfold outputs_app. cbn [buttons text_areas]. now rewrite !app_assoc.
Qed.

Lemma extend_bind out (r : result outputs) :
  extend out r = (more <- r ;; Ok (outputs_app out more)).
Proof. destruct r; reflexivity. Qed.

Lemma visit_frame wx wy n out :
  visit wx wy n out = extend out (visit wx wy n no_outputs).
Proof.
  rewrite !visit_cases.
  destruct (clickable n); [|destruct (text_input n)].
  - destruct (element_of wx wy n) as [e|e]; [|reflexivity].
    cbn [bind extend]. unfold outputs_app, no_outputs.
    cbn [buttons text_areas app]. now rewrite app_nil_r.
  - destruct (element_of wx wy n) as [e|e]; [|reflexivity].
    cbn [bind extend]. unfold outputs_app, no_outputs.
    cbn [buttons text_areas app]. now rewrite app_nil_r.
  - cbn [extend]. now rewrite outputs_app_nil_r.
Qed.

Lemma visit_all_frame wx wy ns :
  forall out, visit_all wx wy ns out = extend out (visit_all wx wy ns no_outputs).
Proof.
  induction ns as [|n ns IH]; intros out; cbn [visit_all].
  - cbn [extend]. now rewrite outputs_app_nil_r.
  - rewrite (visit_frame wx wy n out).
    destruct (visit wx wy n no_outputs) as [r1|e]; [|reflexivity].
    cbn [extend bind]. rewrite (IH (outputs_app out r1)), (IH r1).
    destruct (visit_all wx wy ns no_outputs) as [r2|e]; [|reflexivity].
    cbn [extend]. now rewrite outputs_app_assoc.
Qed.

(** X9: the walk of a subtree only appends: started on lists that
    already hold elements it keeps them, in place and in order, and
    adds after them exactly what it yields when started on empty lists;
    it raises from any start when it raises from the empty one. *)
Theorem traverse_only_appends wx wy n out :
  traverse wx wy n out = extend out (traverse wx wy n no_outputs) /\
  forall out',
    traverse wx wy n out = Ok out' ->
    initial (buttons out) (buttons out') /\
    initial (text_areas out) (text_areas out').
Proof.
  assert (H : traverse wx wy n out = extend out (traverse wx wy n no_outputs)).
  { rewrite !traverse_preorder. apply visit_all_frame. }
  split; [exact H|]. intros out' Hout. rewrite H in Hout.
  destruct (traverse wx wy n no_outputs) as [more|e]; [|discriminate Hout].
  injection Hout as <-. split; [exists (buttons more) | exists (text_areas more)];
    reflexivity.
Qed.

(** X10: subtrees are walked independently: the lists of a sequence of
    children are the lists of its first part followed by the lists of
    the rest, each walked from empty lists, and the lists of a node are
    its own element, if any, followed by the lists of its children. *)
Theorem subtrees_compose wx wy :
  (forall cs1 cs2,
      traverse_children wx wy (cs1 ++ cs2) no_outputs =
      r1 <- traverse_children wx wy cs1 no_outputs ;;
      r2 <- traverse_children wx wy cs2 no_outputs ;;
      Ok (outputs_app r1 r2)) /\
  (forall n,
      traverse wx wy n no_outputs =
      r0 <- visit wx wy n no_outputs ;;
      r <- traverse_children wx wy (children n) no_outputs ;;
      Ok (outputs_app r0 r)).
Proof.
  split.
  - intros cs1 cs2. rewrite !traverse_children_flat, flat_map_app, visit_all_app.
    apply bind_ext. intros r1.
    now rewrite (visit_all_frame wx wy _ r1), extend_bind.
  - intros n. rewrite traverse_unfold. apply bind_ext. intros r0.
    rewrite !traverse_children_flat.
    now rewrite (visit_all_frame wx wy _ r0), extend_bind.
Qed.

(** ** Where the elements come from *)

(** X11: the lists are pure in role and carry the node's texts: every
    element of the clickable list is that of a node of the tree with
    role AXButton or AXMenuButton, every element of the text-input list
    that of a node with role AXTextArea, and its description and role
    description are those of the node. *)
Theorem elements_come_from_nodes t bs ts :
  extract_elements t = Ok (bs, ts) ->
  (forall e, In e bs ->
     exists n,
       subnode n t /\
       (role n = Some "AXButton" \/ role n = Some "AXMenuButton") /\
       el_description e = description n /\
       el_role_description e = role_description n) /\
  (forall e, In e ts ->
     exists n,
       subnode n t /\
       role n = Some "AXTextArea" /\
       el_description e = description n /\
       el_role_description e = role_description n).
Proof.
  intros H. apply extract_elements_ok in H as (wx & wy & _ & Fb & Ft).
  split; intros e He.
  - destruct (Forall2_In_right _ _ _ _ Fb He) as (n & Hn & Hin).
    apply filter_In in Hin as [Hin Hc]. apply subnode_preorder in Hin.
    apply andb_true_iff in Hc as [Hr _]. apply role_in_buttons in Hr.
    apply emits_inv in Hn as (x1 & y1 & x2 & y2 & fx & fy & _ & _ & _ & ->).
    exists n. auto.
  - destruct (Forall2_In_right _ _ _ _ Ft He) as (n & Hn & Hin).
    apply filter_In in Hin as [Hin Hc]. apply subnode_preorder in Hin.
    apply andb_true_iff in Hc as [Hr _]. apply role_is_iff in Hr.
    apply emits_inv in Hn as (x1 & y1 & x2 & y2 & fx & fy & _ & _ & _ & ->).
    exists n. auto.
Qed.

Lemma elements_come_from_nodes_witness :
  exists n,
    subnode n example_tree /\
    role n = Some "AXTextArea" /\
    el_description (plain_element f130 f230) = description n /\
    el_role_description (plain_element f130 f230) = role_description n.
Proof.
  apply (elements_come_from_nodes example_tree
           [plain_element f105 f205] [plain_element f130 f230]).
  - vm_compute. reflexivity.
  - left. reflexivity.
Defined.

(** X12: a node with role AXMenuButton and a box (x1, y1, x2, y2) has
    its element in the clickable list, a node with role AXTextArea and
    such a box has it in the text-input list, each with centre
    ((x1 + x2) // 2 + window_x, (y1 + y2) // 2 + window_y). *)
Theorem menu_button_and_text_area_located t bs ts wx wy n x1 y1 x2 y2 :
  extract_elements t = Ok (bs, ts) ->
  window_origin t = Ok (wx, wy) ->
  subnode n t ->
  visible_bbox n = Some [x1; y1; x2; y2] ->
  (role n = Some "AXMenuButton" ->
   exists e, In e bs /\ located_at wx wy n x1 y1 x2 y2 e) /\
  (role n = Some "AXTextArea" ->
   exists e, In e ts /\ located_at wx wy n x1 y1 x2 y2 e).
Proof.
  intros H Ho Hsub Hbox.
  apply extract_elements_ok in H as (wx' & wy' & Ho' & Fb & Ft).
  rewrite Ho in Ho'. injection Ho' as <- <-.
  apply subnode_preorder in Hsub.
  split; intros Hrole.
  - assert (Hin : In n (filter clickable (preorder t))).
    { apply filter_In. split; [exact Hsub|].
      unfold clickable. now rewrite Hrole, Hbox. }
    destruct (Forall2_In_left _ _ _ _ Fb Hin) as (e & He & Hine).
    exists e. split; [exact Hine|]. exact (emits_center _ _ _ _ _ _ _ _ He Hbox).
  - assert (Hin : In n (filter text_input (preorder t))).
    { apply filter_In. split; [exact Hsub|].
      unfold text_input. now rewrite Hrole, Hbox. }
    destruct (Forall2_In_left _ _ _ _ Ft Hin) as (e & He & Hine).
    exists e. split; [exact Hine|]. exact (emits_center _ _ _ _ _ _ _ _ He Hbox).
Qed.

Lemma menu_button_and_text_area_located_witness :
  exists e,
    In e [plain_element f130 f230] /\
    located_at f100 f200 (leaf "AXTextArea" [20; 20; 40; 40]) 20 20 40 40 e.
Proof.
  apply (menu_button_and_text_area_located example_tree
           [plain_element f105 f205] [plain_element f130 f230] f100 f200
           (leaf "AXTextArea" [20; 20; 40; 40]) 20 20 40 40);
    try (vm_compute; reflexivity).
  apply subnode_preorder. cbn. auto.
Defined.

(** * Properties of the input tools *)

(** ** What is typed *)

Lemma typed_keystrokes segments flag : typed (keystrokes segments flag) = segments.
Proof.
  induction segments as [|seg [|next rest] IH]; [reflexivity| |].
  - cbn [keystrokes typed]. destruct flag; reflexivity.
  - change (keystrokes (seg :: next :: rest) flag)
      with (Typewrite seg :: Press "enter" :: keystrokes (next :: rest) flag).
    cbn [typed]. now rewrite IH.
Qed.

Lemma presses_keystrokes segments flag :
  segments <> [] ->
  presses (keystrokes segments flag)
  = (List.length segments - 1 + (if flag then 1 else 0))%nat.
Proof.
  induction segments as [|seg [|next rest] IH]; intros Hne; [contradiction| |].
  - cbn [keystrokes presses]. destruct flag; reflexivity.
  - change (keystrokes (seg :: next :: rest) flag)
      with (Typewrite seg :: Press "enter" :: keystrokes (next :: rest) flag).
    cbn [presses]. rewrite IH by discriminate. cbn [List.length]. lia.
Qed.

Lemma keystrokes_keys segments flag key :
  In (Press key) (keystrokes segments flag) -> key = "enter".
Proof.
  induction segments as [|seg [|next rest] IH]; [intros []| |].
  - cbn [keystrokes]. destruct flag; cbn [In]; intros [H|[H|[]]] || intros [H|[]];
      first [discriminate H | now injection H as <-].
  - change (keystrokes (seg :: next :: rest) flag)
      with (Typewrite seg :: Press "enter" :: keystrokes (next :: rest) flag).
    cbn [In]. intros [H|[H|H]];
      [discriminate H | now injection H as <- | now apply IH].
Qed.

Lemma type_text_log text flag :
  type_text text flag = (keystrokes (split_scan line_break 0 text) flag, "Success").
Proof.
  unfold type_text. cbn [str_split line_break]. fold line_break.
  rewrite <- (Z.add_0_l (Z.of_nat _)), type_lines_keystrokes. reflexivity.
Qed.

(** X13: a text without backslash-n is typed in one piece, followed by
    enter exactly when the flag is set; an empty text still gives one,
    empty, message. *)
Theorem type_text_single_line text press_enter_after :
  occurs line_break text = false ->
  type_text text press_enter_after
  = (Typewrite text :: (if press_enter_after then [Press "enter"] else []),
     "Success").
Proof.
  intros H. rewrite type_text_log, (split_scan_whole _ _ H). reflexivity.
Qed.

Lemma type_text_single_line_witness :
  type_text "hello" false = ([Typewrite "hello"], "Success").
Proof. apply (type_text_single_line "hello" false). reflexivity. Defined.

(** X14: the messages typed, joined by backslash-n, are the text; the
    number of key presses is the number of messages less one, plus one
    when the flag is set; at least one message is typed; and no key but
    enter is pressed. *)
Theorem type_text_counts text press_enter_after :
  let log := fst (type_text text press_enter_after) in
  String.concat line_break (typed log) = text /\
  typed log <> [] /\
  presses log
  = (List.length (typed log) - 1 + (if press_enter_after then 1 else 0))%nat /\
  (forall key, In (Press key) log -> key = "enter").
Proof.
  assert (Hsep : line_break <> EmptyString) by discriminate.
  cbn zeta. rewrite type_text_log. cbn [fst]. rewrite typed_keystrokes.
  split; [now apply split_scan_concat|].
  split; [apply split_scan_nonempty|].
  split; [apply presses_keystrokes, split_scan_nonempty|].
  intros key. apply keystrokes_keys.
Qed.

(** ** A library that fails *)

Section Library.

Context {call : Type}.
Variable raises : list call -> call -> option string.

(** The calls of a script are made until one raises. *)
Lemma run_calls_outcome cs :
  forall log,
    (run_calls raises cs log = (log ++ cs, inr tt) /\
     forall done c rest, cs = done ++ c :: rest -> raises (log ++ done) c = None)
    \/
    (exists done c rest msg,
        cs = done ++ c :: rest /\
        raises (log ++ done) c = Some msg /\
        (forall d c' r, done = d ++ c' :: r -> raises (log ++ d) c' = None) /\
        run_calls raises cs log = (log ++ done, inl msg)).
Proof.
  induction cs as [|c cs IH]; intros log.
  - left. cbn [run_calls]. unfold script_ret. rewrite app_nil_r.
    split; [reflexivity|]. intros [|d done] c rest H; discriminate H.
  - cbn [run_calls]. unfold script_bind, script_call.
    destruct (raises log c) as [msg|] eqn:Hc.
    + right. exists [], c, cs, msg. rewrite app_nil_r.
      repeat split; try assumption.
      intros [|d0 d] c' r H; discriminate H.
    + destruct (IH (log ++ [c])) as [[Hrun Hall]|(done & c1 & rest & msg & -> & Hr & Hd & Hrun)].
      * left. rewrite Hrun, <- app_assoc. split; [reflexivity|].
        intros [|d done] c' rest H.
        -- injection H as <- <-. now rewrite app_nil_r.
        -- injection H as <- ->.
           specialize (Hall done c' rest eq_refl).
           now rewrite <- app_assoc in Hall.
      * right. exists (c :: done), c1, rest, msg.
        rewrite <- !app_assoc in *. cbn [app] in *.
        repeat split; try assumption.
        intros [|d0 d] c' r H.
        -- injection H as <- _. now rewrite app_nil_r.
        -- injection H as <- ->.
           specialize (Hd d c' r eq_refl). now rewrite <- app_assoc in Hd.
Qed.

End Library.

Lemma type_lines_on_calls raises flag lines :
  forall i log,
    type_lines_on raises (i + Z.of_nat (List.length lines)) flag i lines log
    = run_calls raises (keystrokes lines flag) log.
Proof.
  induction lines as [|line rest IH]; intros i log; [reflexivity|].
  cbn [type_lines_on]. destruct rest as [|next rest].
  - cbn [List.length type_lines_on keystrokes].
    replace (i <? i + Z.of_nat 1 - 1) with false by (symmetry; apply Z.ltb_ge; lia).
    destruct flag; cbn [orb run_calls]; unfold script_bind, script_call, script_ret;
      (destruct (raises log (Typewrite line)); [reflexivity|]);
      try destruct (raises _ (Press "enter")); reflexivity.
  - replace (i <? i + Z.of_nat (List.length (line :: next :: rest)) - 1) with true
      by (symmetry; apply Z.ltb_lt; cbn [List.length]; lia).
    cbn [orb].
    replace (i + Z.of_nat (List.length (line :: next :: rest)))
      with ((i + 1) + Z.of_nat (List.length (next :: rest)))
      by (cbn [List.length]; lia).
    change (keystrokes (line :: next :: rest) flag)
      with (Typewrite line :: Press "enter" :: keystrokes (next :: rest) flag).
    cbn [run_calls]. unfold script_bind, script_call.
    destruct (raises log (Typewrite line)); [reflexivity|].
    destruct (raises _ (Press "enter")); [reflexivity|].
    apply IH.
Qed.

(** X15: over a library that may fail, [type_text] makes the calls of
    the full run one by one up to the first that raises: either every
    call completes and it returns "Success", or it stops before the
    failing call, makes none of the later ones, and returns "Error: "
    followed by the text of the exception; it never raises itself. *)
Theorem type_text_stops_at_failure raises text press_enter_after :
  let full := fst (type_text text press_enter_after) in
  (type_text_on raises text press_enter_after = (full, "Success") /\
   forall done c rest, full = done ++ c :: rest -> raises done c = None)
  \/
  (exists done c rest msg,
      full = done ++ c :: rest /\
      raises done c = Some msg /\
      (forall d c' r, done = d ++ c' :: r -> raises d c' = None) /\
      type_text_on raises text press_enter_after
      = (done, ("Error: " ++ msg)%string)).
Proof.
  cbn zeta. rewrite type_text_log. cbn [fst].
  unfold type_text_on, attempt. cbn [str_split line_break]. fold line_break.
  rewrite <- (Z.add_0_l (Z.of_nat _)), type_lines_on_calls.
  destruct (run_calls_outcome raises
              (keystrokes (split_scan line_break 0 text) press_enter_after) [])
    as [[Hrun Hall]|(done & c & rest & msg & Hfull & Hr & Hd & Hrun)];
    rewrite Hrun; cbn [app] in *.
  - left. split; [reflexivity | exact Hall].
  - right. exists done, c, rest, msg. auto.
Qed.

(** When the library accepts every call the tool over it makes exactly
    the calls of the full run and returns "Success". *)
Lemma type_text_on_accepting_library text press_enter_after :
  type_text_on never_raises text press_enter_after
  = type_text text press_enter_after.
Proof.
  rewrite type_text_log.
  unfold type_text_on, attempt. cbn [str_split line_break]. fold line_break.
  rewrite <- (Z.add_0_l (Z.of_nat _)), type_lines_on_calls.
  destruct (run_calls_outcome (@never_raises gui_call)
              (keystrokes (split_scan line_break 0 text) press_enter_after) [])
    as [[Hrun _]|(done & c & rest & msg & _ & Hr & _)].
  - now rewrite Hrun.
  - discriminate Hr.
Qed.

(** ** The pointer tool *)

(** X16: [mouse_move_and_click] moves the pointer to (x, y) and then
    clicks: a click is made only after that move has completed,
    "Success" is returned exactly when both calls completed, and a
    failing call gives "Error: " followed by the text of its exception
    with nothing after it attempted. *)
Theorem mouse_move_and_click_outcome raises x y :
  (raises [] (MoveTo x y) = None /\
   raises [MoveTo x y] Click = None /\
   mouse_move_and_click raises x y = ([MoveTo x y; Click], "Success"))
  \/
  (exists msg,
      raises [] (MoveTo x y) = None /\
      raises [MoveTo x y] Click = Some msg /\
      mouse_move_and_click raises x y
      = ([MoveTo x y], ("Error: " ++ msg)%string))
  \/
  (exists msg,
      raises [] (MoveTo x y) = Some msg /\
      mouse_move_and_click raises x y = ([], ("Error: " ++ msg)%string)).
Proof.
  unfold mouse_move_and_click, attempt, script_bind, script_call.
  destruct (raises [] (MoveTo x y)) as [msg|] eqn:Hm.
  - right; right. exists msg. auto.
  - cbn [app]. destruct (raises [MoveTo x y] Click) as [msg|] eqn:Hc.
    + right; left. exists msg. auto.
    + left. auto.
Qed.

(** * Properties of the screen tool *)

Lemma in_valid_bundle_ids bundle_id :
  existsb (String.eqb bundle_id) valid_bundle_ids = true <->
  In bundle_id valid_bundle_ids.
Proof.
  rewrite existsb_exists. split.
  - intros (x & Hx & Heq). apply String.eqb_eq in Heq. now subst.
  - intros H. exists bundle_id. split; [exact H | apply String.eqb_refl].
Qed.

Lemma getitem_last_app {A : Type} (init : list A) (a : A) :
  getitem_last (init ++ [a]) = Ok a.
Proof. unfold getitem_last. now rewrite rev_app_distr. Qed.

(** The name asked of the provider is the last dot-separated piece of
    the bundle id. *)
Lemma app_name_last bundle_id :
  exists init name,
    split_scan "." 0 bundle_id = init ++ [name] /\
    app_name bundle_id = Ok name /\
    occurs "." name = false /\
    String.concat "." (init ++ [name]) = bundle_id.
Proof.
  assert (Hsep : "." <> EmptyString) by discriminate.
  destruct (exists_last (split_scan_nonempty "." bundle_id 0)) as (init & name & Hs).
  exists init, name. split; [exact Hs|].
  split; [|split].
  - unfold app_name. cbn [str_split bind]. rewrite Hs. apply getitem_last_app.
  - pose proof (split_scan_free "." Hsep bundle_id) as Hfree.
    rewrite Hs in Hfree. apply Forall_app in Hfree as [_ Hfree].
    now inversion Hfree.
  - rewrite <- Hs. now apply split_scan_concat.
Qed.

Section ScreenToolFacts.

Variables Image Bundle : Type.
Variable get_app_bundle : string -> failure + Bundle.
Variable get_tree_screenshot : Bundle -> failure + (node * Image * Image).
Variable describe : failure -> string.
Variable format_exc : failure -> string.

Local Abbreviation tool :=
  (get_screen_buttons_textarea Image Bundle get_app_bundle get_tree_screenshot
     describe format_exc).

Local Abbreviation report_of := (report Image describe format_exc).

(** The tool on a listed bundle id, stage by stage. *)
Lemma tool_listed bundle_id name :
  In bundle_id valid_bundle_ids ->
  app_name bundle_id = Ok name ->
  tool bundle_id =
  match get_app_bundle name with
  | inl e => report_of (opening bundle_id ++ [AskBundle name]) e
  | inr bundle =>
      match get_tree_screenshot bundle with
      | inl e => report_of (opening bundle_id ++ [AskBundle name; AskTree]) e
      | inr (tree, im, im_seg) =>
          match extract_elements tree with
          | Raise e =>
              report_of (opening bundle_id ++ [AskBundle name; AskTree]) (Builtin e)
          | Ok (bs, ts) =>
              (opening bundle_id ++ [AskBundle name; AskTree], Screen im bs ts)
          end
      end
  end.
Proof.
  intros Hin Hname. apply in_valid_bundle_ids in Hin.
  unfold get_screen_buttons_textarea. rewrite Hin. cbn [negb].
  change (parts <- str_split "." bundle_id ;; getitem_last parts)
    with (app_name bundle_id).
  rewrite Hname. cbn [caught].
  destruct (get_app_bundle name) as [e|bundle]; [reflexivity|].
  rewrite <- app_assoc. cbn [app].
  destruct (get_tree_screenshot bundle) as [e|[[tree im] im_seg]]; [reflexivity|].
  rewrite get_ui_elements_eq.
  destruct (extract_elements tree) as [[bs ts]|e]; reflexivity.
Qed.

Lemma tool_unlisted bundle_id :
  ~ In bundle_id valid_bundle_ids ->
  tool bundle_id = ([], Message invalid_bundle_message).
Proof.
  intros Hin. unfold get_screen_buttons_textarea.
  destruct (existsb (String.eqb bundle_id) valid_bundle_ids) eqn:E; [|reflexivity].
  apply in_valid_bundle_ids in E. contradiction.
Qed.

(** What the tool logs on a listed id: the opening, the two questions
    to the provider as far as it got, and the two lines of a report. *)
Lemma tool_log_listed bundle_id name :
  In bundle_id valid_bundle_ids ->
  app_name bundle_id = Ok name ->
  exists asked reported,
    fst (tool bundle_id) = opening bundle_id ++ AskBundle name :: asked ++ reported /\
    (asked = [] \/ asked = [AskTree]) /\
    (reported = [] \/ exists a b, reported = [Print a; Print b]).
Proof.
  intros Hin Hname. rewrite (tool_listed _ _ Hin Hname).
  unfold report.
  destruct (get_app_bundle name) as [e|bundle].
  { exists [], [Print ("Error: " ++ describe e)%string;
                Print ("Traceback: " ++ format_exc e)%string].
    cbn [fst app]. rewrite <- app_assoc. cbn [app].
    split; [reflexivity | split; [auto | right; eauto]]. }
  destruct (get_tree_screenshot bundle) as [e|[[tree im] im_seg]].
  { exists [AskTree], [Print ("Error: " ++ describe e)%string;
                       Print ("Traceback: " ++ format_exc e)%string].
    cbn [fst app]. rewrite <- app_assoc. cbn [app].
    split; [reflexivity | split; [auto | right; eauto]]. }
  destruct (extract_elements tree) as [[bs ts]|e].
  - exists [AskTree], []. cbn [fst app].
    split; [reflexivity | split; auto].
  - exists [AskTree], [Print ("Error: " ++ describe (Builtin e))%string;
                       Print ("Traceback: " ++ format_exc (Builtin e))%string].
    cbn [fst app]. rewrite <- app_assoc. cbn [app].
    split; [reflexivity | split; [auto | right; eauto]].
Qed.

(** X17: only the nine listed applications are ever opened: on any
    other bundle id the tool does nothing and returns the message that
    lists the valid ids; on a listed id it starts by printing two lines,
    running open -b with that id and sleeping five seconds; and the only
    process it ever runs is that one. *)
Theorem only_listed_apps_are_opened bundle_id :
  (~ In bundle_id valid_bundle_ids ->
   tool bundle_id = ([], Message invalid_bundle_message)) /\
  (In bundle_id valid_bundle_ids ->
   exists rest, fst (tool bundle_id) = opening bundle_id ++ rest) /\
  (forall args,
      In (Subprocess args) (fst (tool bundle_id)) ->
      In bundle_id valid_bundle_ids /\ args = ["open"; "-b"; bundle_id]).
Proof.
  destruct (app_name_last bundle_id) as (init & name & _ & Hname & _).
  split; [apply tool_unlisted|]. split.
  - intros Hin. destruct (tool_log_listed _ _ Hin Hname) as (asked & reported & -> & _).
    eauto.
  - intros args Hargs.
    destruct (in_dec string_dec bundle_id valid_bundle_ids) as [Hin|Hout].
    + split; [exact Hin|].
      destruct (tool_log_listed _ _ Hin Hname)
        as (asked & reported & Hlog & Hasked & Hreported).
      rewrite Hlog in Hargs. apply in_app_or in Hargs as [Hargs|Hargs].
      * cbn [opening In] in Hargs.
        destruct Hargs as [H|[H|[H|[H|[]]]]]; try discriminate H.
        now injection H as <-.
      * destruct Hargs as [H|Hargs]; [discriminate H|].
        apply in_app_or in Hargs as [Hargs|Hargs].
        -- destruct Hasked as [-> | ->]; [destruct Hargs|].
           destruct Hargs as [H|[]]. discriminate H.
        -- destruct Hreported as [-> | (a & b & ->)]; [destruct Hargs|].
           destruct Hargs as [H|[H|[]]]; discriminate H.
    + rewrite (tool_unlisted _ Hout) in Hargs. destruct Hargs.
Qed.

(** X18: on a listed id the provider is asked for one application
    name, the part of the bundle id after its last dot. *)
Theorem provider_asked_for_last_piece bundle_id :
  In bundle_id valid_bundle_ids ->
  exists init name,
    split_scan "." 0 bundle_id = init ++ [name] /\
    String.concat "." (init ++ [name]) = bundle_id /\
    occurs "." name = false /\
    In (AskBundle name) (fst (tool bundle_id)) /\
    (forall other, In (AskBundle other) (fst (tool bundle_id)) -> other = name).
Proof.
  intros Hin.
  destruct (app_name_last bundle_id) as (init & name & Hs & Hname & Hfree & Hcat).
  exists init, name. repeat split; try assumption.
  - destruct (tool_log_listed _ _ Hin Hname) as (asked & reported & -> & _).
    apply in_or_app. right. now left.
  - intros other Hother.
    destruct (tool_log_listed _ _ Hin Hname)
      as (asked & reported & Hlog & Hasked & Hreported).
    rewrite Hlog in Hother. apply in_app_or in Hother as [Hother|Hother].
    + cbn [opening In] in Hother.
      destruct Hother as [H|[H|[H|[H|[]]]]]; discriminate H.
    + destruct Hother as [H|Hother]; [now injection H as <-|].
      apply in_app_or in Hother as [Hother|Hother].
      * destruct Hasked as [-> | ->]; [destruct Hother|].
        destruct Hother as [H|[]]. discriminate H.
      * destruct Hreported as [-> | (a & b & ->)]; [destruct Hother|].
        destruct Hother as [H|[H|[]]]; discriminate H.
Qed.

(** X19: the tool returns a screenshot with two lists exactly when the
    id is listed, the provider gives a bundle and then a tree with its
    screenshots, and the extraction on that tree returns; the
    screenshot is the provider's first one and the lists are those of
    the extraction. *)
Theorem screen_result_iff bundle_id log im bs ts :
  tool bundle_id = (log, Screen im bs ts) <->
  In bundle_id valid_bundle_ids /\
  exists name bundle tree im_seg,
    app_name bundle_id = Ok name /\
    get_app_bundle name = inr bundle /\
    get_tree_screenshot bundle = inr (tree, im, im_seg) /\
    extract_elements tree = Ok (bs, ts) /\
    log = opening bundle_id ++ [AskBundle name; AskTree].
Proof.
  destruct (app_name_last bundle_id) as (init & name & _ & Hname & _).
  split.
  - intros H.
    destruct (in_dec string_dec bundle_id valid_bundle_ids) as [Hin|Hout];
      [|rewrite (tool_unlisted _ Hout) in H; discriminate H].
    split; [exact Hin|]. rewrite (tool_listed _ _ Hin Hname) in H.
    unfold report in H.
    destruct (get_app_bundle name) as [e|bundle] eqn:Hb; [discriminate H|].
    destruct (get_tree_screenshot bundle) as [e|[[tree im'] im_seg]] eqn:Ht;
      [discriminate H|].
    destruct (extract_elements tree) as [[bs' ts']|e] eqn:He; [|discriminate H].
    injection H as <- <- <- <-.
    exists name, bundle, tree, im_seg. auto.
  - intros (Hin & name' & bundle & tree & im_seg & Hname' & Hb & Ht & He & ->).
    rewrite Hname in Hname'. injection Hname' as <-.
    now rewrite (tool_listed _ _ Hin Hname), Hb, Ht, He.
Qed.

(** X20: on a listed id every exception is caught and reported: when
    the provider raises, or when the extraction raises on the provided
    tree, the tool prints the two report lines and returns the string
    "Error: ", the text of the exception, a line break, "Traceback: "
    and the traceback; it returns no lists. *)
Theorem failures_are_reported bundle_id name :
  In bundle_id valid_bundle_ids ->
  app_name bundle_id = Ok name ->
  (forall e,
      get_app_bundle name = inl e ->
      tool bundle_id = report_of (opening bundle_id ++ [AskBundle name]) e) /\
  (forall bundle e,
      get_app_bundle name = inr bundle ->
      get_tree_screenshot bundle = inl e ->
      tool bundle_id
      = report_of (opening bundle_id ++ [AskBundle name; AskTree]) e) /\
  (forall bundle tree im im_seg e,
      get_app_bundle name = inr bundle ->
      get_tree_screenshot bundle = inr (tree, im, im_seg) ->
      extract_elements tree = Raise e ->
      tool bundle_id
      = report_of (opening bundle_id ++ [AskBundle name; AskTree]) (Builtin e)) /\
  (forall log e,
      snd (report_of log e)
      = Message ("Error: " ++ describe e ++ newline
                 ++ "Traceback: " ++ format_exc e)%string).
Proof.
  intros Hin Hname. rewrite (tool_listed _ _ Hin Hname). repeat split.
  - intros e ->. reflexivity.
  - intros bundle e -> ->. reflexivity.
  - intros bundle tree im im_seg e -> -> ->. reflexivity.
Qed.

End ScreenToolFacts.

(** The names asked for the nine listed ids. *)
Example listed_app_names :
  map app_name valid_bundle_ids
  = map Ok ["Notes"; "VoiceMemos"; "Mail"; "reminders"; "Safari"; "Maps";
            "Photos"; "Music"; "weather"].
Proof. vm_compute. reflexivity. Qed.

Lemma provider_asked_for_last_piece_witness :
  exists init name,
    split_scan "." 0 "com.apple.Notes" = init ++ [name] /\
    String.concat "." (init ++ [name]) = "com.apple.Notes" /\
    occurs "." name = false /\
    In (AskBundle name)
       (fst (get_screen_buttons_textarea Z string sample_bundle
               (sample_screenshot example_tree) sample_text sample_text
               "com.apple.Notes")) /\
    (forall other,
        In (AskBundle other)
           (fst (get_screen_buttons_textarea Z string sample_bundle
                   (sample_screenshot example_tree) sample_text sample_text
                   "com.apple.Notes")) ->
        other = name).
Proof.
  apply (provider_asked_for_last_piece Z string sample_bundle
           (sample_screenshot example_tree) sample_text sample_text
           "com.apple.Notes").
  vm_compute. auto.
Defined.

Lemma failures_are_reported_witness :
  get_screen_buttons_textarea Z string sample_bundle
    (sample_screenshot (window "12" [])) sample_text sample_text "com.apple.Mail"
  = report Z sample_text sample_text
      (opening "com.apple.Mail" ++ [AskBundle "Mail"; AskTree])
      (Builtin IndexError).
Proof.
  destruct (failures_are_reported Z string sample_bundle
              (sample_screenshot (window "12" [])) sample_text sample_text
              "com.apple.Mail" "Mail") as (_ & _ & H & _).
  - vm_compute. auto.
  - vm_compute. reflexivity.
  - apply (H "Mail" (window "12" []) 1 2 IndexError); vm_compute; reflexivity.
Defined.
